(** * The session timeline of the MRI noise-masking client

    A shallow embedding of the timeline logic of [frontend/app/index.tsx]
    (the native-shell variant, module [Native]) and [frontend/app/web.tsx]
    (the browser variant, module [Web]).

    Modelling conventions.
    - JavaScript numbers are idealised as exact rationals ([Q]); the counters
      [currentTime] and [sequenceStartTime] only ever hold integers and are
      kept in [Z]; [sequenceIndex] indexes an array and is a [nat].
    - A React function component runs its body once per render.  The
      functions created by one render ([startSession], [startMRISimulation],
      the [setInterval] callback, [stopSession]) all read that render's
      values of [volume], [sound]/[audio] and [currentSession]; a state
      setter only affects later renders.  The values an interval callback
      sees are therefore recorded in a [Closure] when the interval is
      created.  Refs ([progressTimer.current]) are shared by all renders.
    - [await]ed calls on collaborators are taken as atomic steps; whether
      they resolve or reject is an explicit argument of the operation.
    - Every call on a collaborator and every state setter call is logged as
      an [Event], in program order. *)

From Stdlib Require Import Ascii Decimal DecimalNat DecimalString.
From Stdlib Require Import ZArith QArith Qminmax List Bool String Lia Lqa.
Import ListNotations.
Open Scope Q_scope.

(** ** Data *)

(** An element of [MRIPattern.sequence_pattern]. *)
Record Sequence := mkSequence {
  frequency : Q;
  duration : Q;
  intensity : Q
}.

Record MRIPattern := mkMRIPattern {
  pattern_id : string;
  duration_minutes : Q;
  sequence_pattern : list Sequence
}.

Record SoundProfile := mkSoundProfile {
  profile_id : string;
  profile_type : string
}.

Record UserSession := mkUserSession {
  session_id : string
}.

(** The text held by the [currentPhase] state: the empty string, or the
    template [`Phase ${sequenceIndex + 1}: ${currentSequence.frequency}Hz`],
    kept as its two interpolated values. *)
Inductive PhaseText :=
| NoPhase
| PhaseName (number : Z) (hz : Q).

(** A loaded [Audio.Sound] of the native shell, named by a token. *)
Definition Sound := nat.

(** The [HTMLAudioElement] of the browser variant; [gainNode] tells whether
    the element carries the [gainNode] property set by [loadAudioFile]. *)
Record AudioElement := mkAudio {
  gainNode : bool
}.

(** Calls on collaborators and state setters, as they occur in the source. *)
Inductive Event :=
| Alert (title message : string)
| ConsoleError (message : string)
| PostSession (mri_pattern_id sound_profile_id : string) (volume_level : Q)
| PutSessionComplete (id : string)
| UnloadAsync (s : Sound)
| CreateAsync (vol : Q)
| StopAsync (s : Sound)
| SetVolumeAsync (s : Sound) (v : Q)
| AudioPause (a : AudioElement)
| AudioPlay (a : AudioElement)
| GainValue (a : AudioElement) (v : Q)
| AudioVolume (a : AudioElement) (v : Q)
| SetCurrentSession (s : option UserSession)
| SetSound (s : Sound)
| SetAudio (a : AudioElement)
| SetIsLoading (b : bool)
| SetIsPlaying (b : bool)
| SetVolume (v : Q)
| SetScanProgress (p : Q)
| SetTimeRemaining (r : Q)
| SetCurrentPhase (t : PhaseText).

(** The three [let] variables of [startMRISimulation], shared by the ticks
    of one interval. *)
Record Locals := mkLocals {
  currentTime : Z;
  sequenceIndex : nat;
  sequenceStartTime : Z
}.

(** What an interval callback captured from the render that created it;
    ['sink] is [Sound] in the native shell and [AudioElement] in the
    browser. *)
Record Closure (sink : Type) := mkClosure {
  totalDuration : Q;
  sequences : list Sequence;
  c_volume : Q;
  c_sink : option sink;
  c_currentSession : option UserSession
}.
Arguments mkClosure {sink}.
Arguments totalDuration {sink}.
Arguments sequences {sink}.
Arguments c_volume {sink}.
Arguments c_sink {sink}.
Arguments c_currentSession {sink}.

(** [Math.min((currentTime / totalDuration) * 100, 100)].  A tick always has
    [currentTime >= 1], so for [totalDuration = 0] the quotient is
    [+Infinity] and the minimum is [100]. *)
Definition clampedProgress (currentTime : Z) (totalDuration : Q) : Q :=
  if Qeq_bool totalDuration 0 then 100
  else Qmin ((inject_Z currentTime / totalDuration) * 100) 100.

(** [Math.max(totalDuration - currentTime, 0)]. *)
Definition clampedRemaining (currentTime : Z) (totalDuration : Q) : Q :=
  Qmax (totalDuration - inject_Z currentTime) 0.

(** [currentTime >= totalDuration]. *)
Definition isComplete (currentTime : Z) (totalDuration : Q) : bool :=
  Qle_bool totalDuration (inject_Z currentTime).

(** What one run of an interval callback does: the new values of the
    [let] variables, the calls made, and whether [stopSession()] is called
    at the end. *)
Record Tick := mkTick {
  locals : Locals;
  emitted : list Event;
  autoStop : bool
}.

(** ** The component state *)

(** The [useState] cells the timeline reads or writes, the ref
    [progressTimer], and the intervals the JavaScript runtime currently has
    scheduled (in creation order, each with its closure and the present
    values of its [let] variables).  [audioSink] is the cell called [sound]
    in index.tsx and [audio] in web.tsx.  The ref [scanTimer] is never
    assigned and stays [null]; it is left out. *)
Record App (sink : Type) := mkApp {
  selectedMRIPattern : option MRIPattern;
  selectedSoundProfile : option SoundProfile;
  currentSession : option UserSession;
  isPlaying : bool;
  volume : Q;
  scanProgress : Q;
  timeRemaining : Q;
  currentPhase : PhaseText;
  audioSink : option sink;
  isLoading : bool;
  progressTimer : option nat;
  intervals : list (nat * (Closure sink * Locals));
  nextTimerId : nat
}.
Arguments mkApp {sink}.
Arguments selectedMRIPattern {sink}.
Arguments selectedSoundProfile {sink}.
Arguments currentSession {sink}.
Arguments isPlaying {sink}.
Arguments volume {sink}.
Arguments scanProgress {sink}.
Arguments timeRemaining {sink}.
Arguments currentPhase {sink}.
Arguments audioSink {sink}.
Arguments isLoading {sink}.
Arguments progressTimer {sink}.
Arguments intervals {sink}.
Arguments nextTimerId {sink}.

Section Setters.
Context {sink : Type}.
Implicit Type a : App sink.

Definition setCurrentSession (v : option UserSession) a : App sink :=
  mkApp (selectedMRIPattern a) (selectedSoundProfile a) v (isPlaying a)
        (volume a) (scanProgress a) (timeRemaining a) (currentPhase a)
        (audioSink a) (isLoading a) (progressTimer a) (intervals a)
        (nextTimerId a).

Definition setIsPlaying (v : bool) a : App sink :=
  mkApp (selectedMRIPattern a) (selectedSoundProfile a) (currentSession a) v
        (volume a) (scanProgress a) (timeRemaining a) (currentPhase a)
        (audioSink a) (isLoading a) (progressTimer a) (intervals a)
        (nextTimerId a).

Definition setVolume (v : Q) a : App sink :=
  mkApp (selectedMRIPattern a) (selectedSoundProfile a) (currentSession a)
        (isPlaying a) v (scanProgress a) (timeRemaining a) (currentPhase a)
        (audioSink a) (isLoading a) (progressTimer a) (intervals a)
        (nextTimerId a).

Definition setScanProgress (v : Q) a : App sink :=
  mkApp (selectedMRIPattern a) (selectedSoundProfile a) (currentSession a)
        (isPlaying a) (volume a) v (timeRemaining a) (currentPhase a)
        (audioSink a) (isLoading a) (progressTimer a) (intervals a)
        (nextTimerId a).

Definition setTimeRemaining (v : Q) a : App sink :=
  mkApp (selectedMRIPattern a) (selectedSoundProfile a) (currentSession a)
        (isPlaying a) (volume a) (scanProgress a) v (currentPhase a)
        (audioSink a) (isLoading a) (progressTimer a) (intervals a)
        (nextTimerId a).

Definition setCurrentPhase (v : PhaseText) a : App sink :=
  mkApp (selectedMRIPattern a) (selectedSoundProfile a) (currentSession a)
        (isPlaying a) (volume a) (scanProgress a) (timeRemaining a) v
        (audioSink a) (isLoading a) (progressTimer a) (intervals a)
        (nextTimerId a).

Definition setAudioSink (v : option sink) a : App sink :=
  mkApp (selectedMRIPattern a) (selectedSoundProfile a) (currentSession a)
        (isPlaying a) (volume a) (scanProgress a) (timeRemaining a)
        (currentPhase a) v (isLoading a) (progressTimer a) (intervals a)
        (nextTimerId a).

Definition setIsLoading (v : bool) a : App sink :=
  mkApp (selectedMRIPattern a) (selectedSoundProfile a) (currentSession a)
        (isPlaying a) (volume a) (scanProgress a) (timeRemaining a)
        (currentPhase a) (audioSink a) v (progressTimer a) (intervals a)
        (nextTimerId a).

Definition withIntervals (v : list (nat * (Closure sink * Locals))) a
  : App sink :=
  mkApp (selectedMRIPattern a) (selectedSoundProfile a) (currentSession a)
        (isPlaying a) (volume a) (scanProgress a) (timeRemaining a)
        (currentPhase a) (audioSink a) (isLoading a) (progressTimer a) v
        (nextTimerId a).

(** The effect of a state setter call on the component state; calls on
    collaborators leave it alone. *)
Definition applySetter (e : Event) a : App sink :=
  match e with
  | SetCurrentSession s => setCurrentSession s a
  | SetIsLoading b => setIsLoading b a
  | SetIsPlaying b => setIsPlaying b a
  | SetVolume v => setVolume v a
  | SetScanProgress p => setScanProgress p a
  | SetTimeRemaining r => setTimeRemaining r a
  | SetCurrentPhase t => setCurrentPhase t a
  | _ => a
  end.

Definition applySetters (es : list Event) a : App sink :=
  fold_left (fun a e => applySetter e a) es a.

(** The interval table of the runtime. *)
Fixpoint findInterval (h : nat) (t : list (nat * (Closure sink * Locals)))
  : option (Closure sink * Locals) :=
  match t with
  | [] => None
  | (k, v) :: t' => if Nat.eqb k h then Some v else findInterval h t'
  end.

Fixpoint storeLocals (h : nat) (l : Locals)
         (t : list (nat * (Closure sink * Locals)))
  : list (nat * (Closure sink * Locals)) :=
  match t with
  | [] => []
  | (k, (c, l0)) :: t' =>
    if Nat.eqb k h then (k, (c, l)) :: t' else (k, (c, l0)) :: storeLocals h l t'
  end.

Fixpoint removeInterval (h : nat) (t : list (nat * (Closure sink * Locals)))
  : list (nat * (Closure sink * Locals)) :=
  match t with
  | [] => []
  | (k, v) :: t' =>
    if Nat.eqb k h then removeInterval h t' else (k, v) :: removeInterval h t'
  end.

(** [setInterval(callback, 1000)]: a fresh handle, scheduled after the
    intervals that exist already.  The runtime hands out non-zero handles,
    so the truthiness tests on [progressTimer.current] are null tests. *)
Definition setInterval (c : Closure sink) (l : Locals) a : nat * App sink :=
  (nextTimerId a,
   mkApp (selectedMRIPattern a) (selectedSoundProfile a) (currentSession a)
         (isPlaying a) (volume a) (scanProgress a) (timeRemaining a)
         (currentPhase a) (audioSink a) (isLoading a) (progressTimer a)
         (intervals a ++ [(nextTimerId a, (c, l))]) (S (nextTimerId a))).

(** [progressTimer.current = h]. *)
Definition assignProgressTimer (h : nat) a : App sink :=
  mkApp (selectedMRIPattern a) (selectedSoundProfile a) (currentSession a)
        (isPlaying a) (volume a) (scanProgress a) (timeRemaining a)
        (currentPhase a) (audioSink a) (isLoading a) (Some h) (intervals a)
        (nextTimerId a).

(** [if (progressTimer.current) clearInterval(progressTimer.current)]; the
    ref keeps the handle. *)
Definition clearProgressTimer a : App sink :=
  match progressTimer a with
  | Some h => withIntervals (removeInterval h (intervals a)) a
  | None => a
  end.

End Setters.

(** How the awaited calls of [startSession] end: the session the backend
    answers with ([None] when [fetch] or [json()] rejects), whether unloading
    the previous sound resolves, and the sink that loading produces ([None]
    when it throws). *)
Record StartOutcome (sink : Type) := mkStartOutcome {
  sessionResponse : option UserSession;
  unloadResolves : bool;
  loadedSink : option sink
}.
Arguments mkStartOutcome {sink}.
Arguments sessionResponse {sink}.
Arguments unloadResolves {sink}.
Arguments loadedSink {sink}.

(** How the awaited calls of [stopSession] end. *)
Record StopOutcome := mkStopOutcome {
  stopResolves : bool;
  completeResolves : bool
}.

Definition allResolve : StopOutcome := mkStopOutcome true true.

Definition startLocals : Locals := mkLocals 0 0 0.

(** ** The native shell (index.tsx) *)
Module Native.

(** The [setInterval] callback of [startMRISimulation] (lines 247-280). *)
Definition intervalCallback (c : Closure Sound) (l : Locals) : Tick :=
  let currentTime := (currentTime l + 1)%Z in
  let progressEvents :=
    [ SetScanProgress (clampedProgress currentTime (totalDuration c));
      SetTimeRemaining (clampedRemaining currentTime (totalDuration c)) ] in
  let '(sequenceIndex', sequenceStartTime', phaseEvents) :=
    match sequences c with
    | [] => (sequenceIndex l, sequenceStartTime l, [])
    | _ :: _ =>
      match nth_error (sequences c) (sequenceIndex l) with
      | None => (sequenceIndex l, sequenceStartTime l, [])
      | Some currentSequence =>
        let sequenceElapsed := (currentTime - sequenceStartTime l)%Z in
        let '(sequenceIndex', sequenceStartTime') :=
          if Qle_bool (duration currentSequence) (inject_Z sequenceElapsed)
             && (Z.of_nat (sequenceIndex l)
                 <? Z.of_nat (List.length (sequences c)) - 1)%Z
          then (S (sequenceIndex l), currentTime)
          else (sequenceIndex l, sequenceStartTime l) in
        let phaseName :=
          PhaseName (Z.of_nat sequenceIndex' + 1) (frequency currentSequence) in
        let intensityFactor := intensity currentSequence / 120 in
        let adjustedVolume := Qmin (c_volume c * intensityFactor) 1 in
        (sequenceIndex', sequenceStartTime',
         SetCurrentPhase phaseName ::
         match c_sink c with
         | Some sound => [SetVolumeAsync sound adjustedVolume]
         | None => []
         end)
      end
    end in
  mkTick (mkLocals currentTime sequenceIndex' sequenceStartTime')
         (progressEvents ++ phaseEvents)
         (isComplete currentTime (totalDuration c)).

(** [stopSession] (lines 201-231), as created by a render whose [sound] and
    [currentSession] are the first two arguments.  A rejected [await] jumps
    to the [catch], which only logs. *)
Definition stopSession (sound : option Sound)
           (currentSession : option UserSession) (x : StopOutcome)
           (a : App Sound) : App Sound * list Event :=
  let stopEvents :=
    match sound with Some s => [StopAsync s] | None => [] end in
  match sound, stopResolves x with
  | Some _, false =>
    (a, stopEvents ++ [ConsoleError "Error stopping session:"])
  | _, _ =>
    let a1 := clearProgressTimer a in
    let completeEvents :=
      match currentSession with
      | Some s => [PutSessionComplete (session_id s)]
      | None => []
      end in
    match currentSession, completeResolves x with
    | Some _, false =>
      (a1, stopEvents ++ completeEvents
           ++ [ConsoleError "Error stopping session:"])
    | _, _ =>
      let resets :=
        [ SetIsPlaying false; SetScanProgress 0; SetTimeRemaining 0;
          SetCurrentPhase NoPhase; SetCurrentSession None ] in
      (applySetters resets a1, stopEvents ++ completeEvents ++ resets)
    end
  end.

(** [startMRISimulation] (lines 233-281), as created by the render [r]; the
    interval it schedules captures [r]'s [volume], [sound] and
    [currentSession] (the latter two through [r]'s [stopSession]). *)
Definition startMRISimulation (r : App Sound) (a : App Sound)
  : App Sound * list Event :=
  match selectedMRIPattern r with
  | None => (a, [])
  | Some pattern =>
    let totalDuration := duration_minutes pattern * 60 in
    let sequences := sequence_pattern pattern in
    let resets := [SetTimeRemaining totalDuration; SetScanProgress 0] in
    let a1 := applySetters resets a in
    let '(h, a2) :=
      setInterval (mkClosure totalDuration sequences (volume r) (audioSink r)
                             (currentSession r))
                  startLocals a1 in
    (assignProgressTimer h a2, resets)
  end.

(** [loadAudioFile] (lines 131-158), as created by the render [r]. *)
Definition loadAudioFile (r : App Sound) (x : StartOutcome Sound)
           (a : App Sound) : App Sound * list Event :=
  let unloadEvents :=
    match audioSink r with Some s => [UnloadAsync s] | None => [] end in
  match audioSink r, unloadResolves x with
  | Some _, false => (a, unloadEvents ++ [ConsoleError "Error loading audio:"])
  | _, _ =>
    match loadedSink x with
    | None =>
      (a, unloadEvents
          ++ [CreateAsync (volume r); ConsoleError "Error loading audio:"])
    | Some newSound =>
      (setAudioSink (Some newSound) a,
       unloadEvents ++ [CreateAsync (volume r); SetSound newSound])
    end
  end.

(** [startSession] (lines 160-199), invoked from the current render. *)
Definition startSession (x : StartOutcome Sound) (a : App Sound)
  : App Sound * list Event :=
  match selectedMRIPattern a, selectedSoundProfile a with
  | Some pattern, Some profile =>
    let post := PostSession (pattern_id pattern) (profile_id profile)
                            (volume a) in
    match sessionResponse x with
    | None =>
      (applySetters [SetIsLoading true; SetIsLoading false] a,
       [ SetIsLoading true; post; ConsoleError "Error starting session:";
         Alert "Error" "Failed to start masking session";
         SetIsLoading false ])
    | Some sessionData =>
      let a1 :=
        applySetters [SetIsLoading true; SetCurrentSession (Some sessionData)]
                     a in
      let '(a2, loadEvents) := loadAudioFile a x a1 in
      let '(a3, simEvents) := startMRISimulation a a2 in
      (applySetters [SetIsPlaying true; SetIsLoading false] a3,
       [SetIsLoading true; post; SetCurrentSession (Some sessionData)]
       ++ loadEvents ++ simEvents ++ [SetIsPlaying true; SetIsLoading false])
    end
  | _, _ =>
    (a, [ Alert "Selection Required"
                "Please select both MRI pattern and sound profile" ])
  end.

(** [adjustVolume] (lines 283-288), invoked from the current render. *)
Definition adjustVolume (newVolume : Q) (a : App Sound)
  : App Sound * list Event :=
  (setVolume newVolume a,
   SetVolume newVolume ::
   match audioSink a with
   | Some sound =>
     if isPlaying a then [SetVolumeAsync sound newVolume] else []
   | None => []
   end).

(** The Stop button: [stopSession] of the current render. *)
Definition pressStop (x : StopOutcome) (a : App Sound)
  : App Sound * list Event :=
  stopSession (audioSink a) (currentSession a) x a.

(** One firing of the interval [h]: nothing if it is not scheduled. *)
Definition fire (x : StopOutcome) (h : nat) (a : App Sound)
  : App Sound * list Event :=
  match findInterval h (intervals a) with
  | None => (a, [])
  | Some (c, l) =>
    let t := intervalCallback c l in
    let a1 := withIntervals (storeLocals h (locals t) (intervals a)) a in
    let a2 := applySetters (emitted t) a1 in
    if autoStop t then
      let '(a3, stopEvents) :=
        stopSession (c_sink c) (c_currentSession c) x a2 in
      (a3, emitted t ++ stopEvents)
    else (a2, emitted t)
  end.

(** [n] firings of the interval [h] in a row. *)
Fixpoint fireMany (x : StopOutcome) (h : nat) (n : nat) (a : App Sound)
  : App Sound * list Event :=
  match n with
  | O => (a, [])
  | S n' =>
    let '(a1, es1) := fireMany x h n' a in
    let '(a2, es2) := fire x h a1 in
    (a2, es1 ++ es2)
  end.

(** One second of wall-clock time: every interval scheduled at its start
    fires once, in creation order, unless cleared before its turn. *)
Definition second (x : StopOutcome) (a : App Sound)
  : App Sound * list Event :=
  fold_left
    (fun '(a, es) h => let '(a', es') := fire x h a in (a', es ++ es'))
    (map fst (intervals a)) (a, []).

Fixpoint seconds (x : StopOutcome) (n : nat) (a : App Sound)
  : App Sound * list Event :=
  match n with
  | O => (a, [])
  | S n' =>
    let '(a1, es1) := seconds x n' a in
    let '(a2, es2) := second x a1 in
    (a2, es1 ++ es2)
  end.

End Native.

(** ** The browser variant (web.tsx) *)
Module Web.

(** The [setInterval] callback of [startMRISimulation] (lines 276-311). *)
Definition intervalCallback (c : Closure AudioElement) (l : Locals) : Tick :=
  let currentTime := (currentTime l + 1)%Z in
  let progressEvents :=
    [ SetScanProgress (clampedProgress currentTime (totalDuration c));
      SetTimeRemaining (clampedRemaining currentTime (totalDuration c)) ] in
  let '(sequenceIndex', sequenceStartTime', phaseEvents) :=
    match sequences c with
    | [] => (sequenceIndex l, sequenceStartTime l, [])
    | _ :: _ =>
      match nth_error (sequences c) (sequenceIndex l) with
      | None => (sequenceIndex l, sequenceStartTime l, [])
      | Some currentSequence =>
        let sequenceElapsed := (currentTime - sequenceStartTime l)%Z in
        let '(sequenceIndex', sequenceStartTime') :=
          if Qle_bool (duration currentSequence) (inject_Z sequenceElapsed)
             && (Z.of_nat (sequenceIndex l)
                 <? Z.of_nat (List.length (sequences c)) - 1)%Z
          then (S (sequenceIndex l), currentTime)
          else (sequenceIndex l, sequenceStartTime l) in
        let phaseName :=
          PhaseName (Z.of_nat sequenceIndex' + 1) (frequency currentSequence) in
        let intensityFactor := intensity currentSequence / 120 in
        let adjustedVolume := Qmin (c_volume c * intensityFactor) 1 in
        (sequenceIndex', sequenceStartTime',
         SetCurrentPhase phaseName ::
         match c_sink c with
         | Some audio =>
           if gainNode audio then [GainValue audio adjustedVolume]
           else [AudioVolume audio adjustedVolume]
         | None => []
         end)
      end
    end in
  mkTick (mkLocals currentTime sequenceIndex' sequenceStartTime')
         (progressEvents ++ phaseEvents)
         (isComplete currentTime (totalDuration c)).

(** [stopSession] (lines 230-260), as created by a render whose [audio] and
    [currentSession] are the first two arguments; [stopResolves] tells
    whether [audio.pause()] returns without throwing. *)
Definition stopSession (audio : option AudioElement)
           (currentSession : option UserSession) (x : StopOutcome)
           (a : App AudioElement) : App AudioElement * list Event :=
  let pauseEvents :=
    match audio with Some el => [AudioPause el] | None => [] end in
  match audio, stopResolves x with
  | Some _, false =>
    (a, pauseEvents ++ [ConsoleError "Error stopping session:"])
  | _, _ =>
    let a1 := clearProgressTimer a in
    let completeEvents :=
      match currentSession with
      | Some s => [PutSessionComplete (session_id s)]
      | None => []
      end in
    match currentSession, completeResolves x with
    | Some _, false =>
      (a1, pauseEvents ++ completeEvents
           ++ [ConsoleError "Error stopping session:"])
    | _, _ =>
      let resets :=
        [ SetIsPlaying false; SetScanProgress 0; SetTimeRemaining 0;
          SetCurrentPhase NoPhase; SetCurrentSession None ] in
      (applySetters resets a1, pauseEvents ++ completeEvents ++ resets)
    end
  end.

(** [startMRISimulation] (lines 262-312), as created by the render [r]. *)
Definition startMRISimulation (r : App AudioElement) (a : App AudioElement)
  : App AudioElement * list Event :=
  match selectedMRIPattern r with
  | None => (a, [])
  | Some pattern =>
    let totalDuration := duration_minutes pattern * 60 in
    let sequences := sequence_pattern pattern in
    let resets := [SetTimeRemaining totalDuration; SetScanProgress 0] in
    let a1 := applySetters resets a in
    let '(h, a2) :=
      setInterval (mkClosure totalDuration sequences (volume r) (audioSink r)
                             (currentSession r))
                  startLocals a1 in
    (assignProgressTimer h a2, resets)
  end.

(** [adjustVolume] (lines 314-324), invoked from the current render;
    [newVolume] is the parsed slider value. *)
Definition adjustVolume (newVolume : Q) (a : App AudioElement)
  : App AudioElement * list Event :=
  (setVolume newVolume a,
   SetVolume newVolume ::
   match audioSink a with
   | Some audio =>
     if isPlaying a then
       if gainNode audio then [GainValue audio newVolume]
       else [AudioVolume audio newVolume]
     else []
   | None => []
   end).

(** The Stop button: [stopSession] of the current render. *)
Definition pressStop (x : StopOutcome) (a : App AudioElement)
  : App AudioElement * list Event :=
  stopSession (audioSink a) (currentSession a) x a.

End Web.

(** ** Runs of one interval *)

(** The [let] variables after [n] ticks of one interval that is not
    cancelled meanwhile. *)
Fixpoint ticks (cb : Locals -> Tick) (n : nat) (l : Locals) : Locals :=
  match n with
  | O => l
  | S n' => locals (cb (ticks cb n' l))
  end.

(** The [n]-th tick (counting from 1) of an interval started afresh. *)
Definition nthTick (cb : Locals -> Tick) (n : nat) : Tick :=
  cb (ticks cb (n - 1) startLocals).

(** ** The example of the specification *)

Definition examplePhases : list Sequence :=
  [ mkSequence 1500 4 120; mkSequence 2000 2 60 ].

(** [totalDurationSeconds = 6], i.e. a tenth of a minute. *)
Definition examplePattern : MRIPattern :=
  mkMRIPattern "example" (1 # 10) examplePhases.

Definition exampleProfile : SoundProfile :=
  mkSoundProfile "ocean" "nature".

(** The component as mounted (nothing playing, no session, no sound, no
    interval), once the user has chosen a pattern, a profile and a base
    volume. *)
Definition ready {sink : Type} (p : MRIPattern) (v : Q) : App sink :=
  mkApp (Some p) (Some exampleProfile) None false v 0 0 NoPhase None false
        None [] 1.

(** ** What a tick shows to the collaborators *)

Definition firstProgress (es : list Event) : option Q :=
  hd_error (flat_map (fun e => match e with
                               | SetScanProgress p => [p]
                               | _ => []
                               end) es).

Definition firstRemaining (es : list Event) : option Q :=
  hd_error (flat_map (fun e => match e with
                               | SetTimeRemaining r => [r]
                               | _ => []
                               end) es).

Definition firstLabel (es : list Event) : option PhaseText :=
  hd_error (flat_map (fun e => match e with
                               | SetCurrentPhase t => [t]
                               | _ => []
                               end) es).

(** The level handed to the audio sink, whichever sink call carries it. *)
Definition sinkLevels (es : list Event) : list Q :=
  flat_map (fun e => match e with
                     | SetVolumeAsync _ v => [v]
                     | GainValue _ v => [v]
                     | AudioVolume _ v => [v]
                     | _ => []
                     end) es.

Record Observation := mkObservation {
  elapsedSeconds : Z;
  phaseIndex : nat;
  progressPercent : option Q;
  remainingSeconds : option Q;
  phaseLabel : option PhaseText;
  appliedVolume : list Q;
  stops : bool
}.

Definition observe (t : Tick) : Observation :=
  mkObservation (currentTime (locals t)) (sequenceIndex (locals t))
                (firstProgress (emitted t)) (firstRemaining (emitted t))
                (firstLabel (emitted t)) (sinkLevels (emitted t))
                (autoStop t).

(** State setter calls are what the rendering layer is told; the other
    events go to the audio sink, the backend or the console. *)
Definition isNotification (e : Event) : bool :=
  match e with
  | SetCurrentSession _ | SetSound _ | SetAudio _ | SetIsLoading _
  | SetIsPlaying _ | SetVolume _ | SetScanProgress _ | SetTimeRemaining _
  | SetCurrentPhase _ => true
  | _ => false
  end.

Definition notifications (es : list Event) : list Event :=
  filter isNotification es.

Definition isError (e : Event) : bool :=
  match e with
  | Alert _ _ | ConsoleError _ => true
  | _ => false
  end.

(** How often [setIsPlaying(false)] was called. *)
Definition countStopped (es : list Event) : nat :=
  List.length (filter (fun e => match e with
                                | SetIsPlaying false => true
                                | _ => false
                                end) es).

(** The five resets at the end of [stopSession]. *)
Definition stopResets : list Event :=
  [ SetIsPlaying false; SetScanProgress 0; SetTimeRemaining 0;
    SetCurrentPhase NoPhase; SetCurrentSession None ].

(** ** The phase rule in the words of the specification

    While [phaseElapsedSeconds >= phases[currentPhaseIndex].durationSeconds]
    and [currentPhaseIndex < phases.length - 1]: increment the index and
    reset [phaseElapsedSeconds] to 0.  Every iteration increments the index,
    which stays below [phases.length], so [fuel = phases.length] iterations
    are never exhausted. *)
Fixpoint specPhaseLoop (fuel : nat) (phases : list Sequence)
         (currentPhaseIndex : nat) (phaseElapsedSeconds : Z) : nat * Z :=
  match fuel with
  | O => (currentPhaseIndex, phaseElapsedSeconds)
  | S fuel' =>
    match nth_error phases currentPhaseIndex with
    | None => (currentPhaseIndex, phaseElapsedSeconds)
    | Some phase =>
      if Qle_bool (duration phase) (inject_Z phaseElapsedSeconds)
         && (Z.of_nat currentPhaseIndex <? Z.of_nat (List.length phases) - 1)%Z
      then specPhaseLoop fuel' phases (S currentPhaseIndex) 0
      else (currentPhaseIndex, phaseElapsedSeconds)
    end
  end.

Definition specPhaseAdvance (phases : list Sequence)
           (currentPhaseIndex : nat) (phaseElapsedSeconds : Z) : nat * Z :=
  specPhaseLoop (List.length phases) phases currentPhaseIndex
                phaseElapsedSeconds.

(** Index and phase-elapsed time held by the [let] variables. *)
Definition phasePosition (l : Locals) : nat * Z :=
  (sequenceIndex l, (currentTime l - sequenceStartTime l)%Z).

(** ** Sample inputs *)

(** The example run with a sink in the closure. *)
Definition exampleClosure {sink : Type} (s : option sink)
  : Closure sink :=
  mkClosure 6 examplePhases (1 # 2) s None.

(** A phase of zero length between two ordinary ones. *)
Definition zeroPhasePhases : list Sequence :=
  [ mkSequence 1500 1 120; mkSequence 1800 0 100; mkSequence 2000 5 60 ].

Definition zeroPhaseClosure : Closure Sound :=
  mkClosure 6 zeroPhasePhases (1 # 2) None None.

(** Ten seconds, one phase. *)
Definition tenSecondPattern : MRIPattern :=
  mkMRIPattern "ten" (1 # 6) [ mkSequence 1500 10 120 ].

(** One minute, no phases. *)
Definition noPhasePattern : MRIPattern :=
  mkMRIPattern "empty" 1 [].

(** Minus one minute. *)
Definition negativePattern : MRIPattern :=
  mkMRIPattern "negative" (-1) examplePhases.

Definition okStart : StartOutcome Sound :=
  mkStartOutcome (Some (mkUserSession "s1")) true (Some 7%nat).

(** The example session just after [startSession] has run.  Its interval
    was created by the render in which Start was pressed, where [sound] and
    [currentSession] were still [null]; the state by now holds the loaded
    sound and the created session. *)
Definition exampleRunning : App Sound :=
  fst (Native.startSession okStart (ready examplePattern (1 # 2))).

(** A browser session in progress: audio loaded, interval 1 scheduled. *)
Definition webRunning : App AudioElement :=
  mkApp (Some examplePattern) (Some exampleProfile)
        (Some (mkUserSession "s1")) true (1 # 2) 0 6 NoPhase
        (Some (mkAudio true)) false (Some 1%nat)
        [(1%nat, (exampleClosure None, startLocals))] 2.

(** Start a ten-second session, let three seconds pass, start again. *)
Definition restarted : App Sound :=
  let a1 := fst (Native.startSession okStart (ready tenSecondPattern (1 # 2))) in
  let a2 := fst (Native.seconds allResolve 3 a1) in
  fst (Native.startSession okStart a2).

(** ** Notions used in the statements *)

(** The [let] variables after a tick, as both callbacks compute them. *)
Definition nextLocals (seqs : list Sequence) (l : Locals) : Locals :=
  let now := (currentTime l + 1)%Z in
  match nth_error seqs (sequenceIndex l) with
  | Some cur =>
    if Qle_bool (duration cur) (inject_Z (now - sequenceStartTime l))
       && (Z.of_nat (sequenceIndex l) <? Z.of_nat (List.length seqs) - 1)%Z
    then mkLocals now (S (sequenceIndex l)) now
    else mkLocals now (sequenceIndex l) (sequenceStartTime l)
  | None => mkLocals now (sequenceIndex l) (sequenceStartTime l)
  end.

(** The displays of the [n]-th tick of a run over [T] seconds follow the
    two formulas of the tick contract, with the consequences the
    specification lists. *)
Definition DisplaysFollowFormulas (cb : Locals -> Tick) (T : Q) : Prop :=
  forall n : nat, (1 <= n)%nat ->
    let t := nthTick cb n in
    let elapsed := inject_Z (Z.of_nat n) in
    currentTime (locals t) = Z.of_nat n /\
    exists p r,
      firstProgress (emitted t) = Some p /\
      firstRemaining (emitted t) = Some r /\
      p == Qmin 100 (elapsed / T * 100) /\
      r == Qmax 0 (T - elapsed) /\
      0 <= p /\ p <= 100 /\
      (p == 100 <-> autoStop t = true) /\
      (autoStop t = true <-> T <= elapsed) /\
      (elapsed <= T -> r + elapsed == T) /\
      (T <= elapsed -> r == 0) /\
      forall m : nat, (n <= m)%nat ->
        exists q, firstProgress (emitted (nthTick cb m)) = Some q /\ p <= q.

(** The [n]-th tick of a run hands exactly one level to the audio sink, and
    that level is [q]. *)
Definition levelAt (cb : Locals -> Tick) (n : nat) (q : Q) : Prop :=
  exists v, sinkLevels (emitted (nthTick cb n)) = [v] /\ v == q.

Definition isAlert (e : Event) : bool :=
  match e with
  | Alert _ _ => true
  | _ => false
  end.

Definition isSessionComplete (e : Event) : bool :=
  match e with
  | PutSessionComplete _ => true
  | _ => false
  end.

(** ** The rest of the component *)

(** The two fetched lists, held in the [useState] cells [mriPatterns] and
    [soundProfiles]. *)
Record Lists := mkLists {
  mriPatterns : list MRIPattern;
  soundProfiles : list SoundProfile
}.

Section SelectionSetters.
Context {sink : Type}.
Implicit Type a : App sink.

Definition setSelectedMRIPattern (v : option MRIPattern) a : App sink :=
  mkApp v (selectedSoundProfile a) (currentSession a) (isPlaying a)
        (volume a) (scanProgress a) (timeRemaining a) (currentPhase a)
        (audioSink a) (isLoading a) (progressTimer a) (intervals a)
        (nextTimerId a).

Definition setSelectedSoundProfile (v : option SoundProfile) a : App sink :=
  mkApp (selectedMRIPattern a) v (currentSession a) (isPlaying a)
        (volume a) (scanProgress a) (timeRemaining a) (currentPhase a)
        (audioSink a) (isLoading a) (progressTimer a) (intervals a)
        (nextTimerId a).

End SelectionSetters.

(** The component as first rendered: the initial values of the [useState]
    cells and refs, and no interval. *)
Definition mounted {sink : Type} : App sink :=
  mkApp None None None false (7 # 10) 0 0 NoPhase None false None [] 1.

(** How the two fetches of [loadData] end ([None]: [fetch] or [json()]
    rejects). *)
Record LoadOutcome := mkLoadOutcome {
  patternsResponse : option (list MRIPattern);
  profilesResponse : option (list SoundProfile)
}.

(** The calls of [loadData]; [Plain] carries the calls that [Event] has
    already. *)
Inductive LoadEvent :=
| GetMriPatterns
| GetSoundProfiles
| SetMriPatterns (l : list MRIPattern)
| SetSoundProfiles (l : list SoundProfile)
| SetSelectedMRIPattern (p : MRIPattern)
| SetSelectedSoundProfile (p : SoundProfile)
| Plain (e : Event).

(** ** The controls of the native shell (index.tsx) *)
Module NativeControls.

(** [loadData] (lines 105-129). *)
Definition loadData (x : LoadOutcome) (ls : Lists) (a : App Sound)
  : Lists * App Sound * list LoadEvent :=
  let failed :=
    [ Plain (ConsoleError "Error loading data:");
      Plain (Alert "Error" "Failed to load MRI patterns and sound profiles");
      Plain (SetIsLoading false) ] in
  let a1 := setIsLoading true a in
  match patternsResponse x with
  | None =>
    (ls, setIsLoading false a1,
     [Plain (SetIsLoading true); GetMriPatterns] ++ failed)
  | Some mriData =>
    let ls1 := mkLists mriData (soundProfiles ls) in
    match profilesResponse x with
    | None =>
      (ls1, setIsLoading false a1,
       [ Plain (SetIsLoading true); GetMriPatterns; SetMriPatterns mriData;
         GetSoundProfiles ] ++ failed)
    | Some soundData =>
      let ls2 := mkLists mriData soundData in
      let '(a2, e2) :=
        match mriData with
        | first :: _ =>
          (setSelectedMRIPattern (Some first) a1, [SetSelectedMRIPattern first])
        | [] => (a1, [])
        end in
      let '(a3, e3) :=
        match soundData with
        | first :: _ =>
          (setSelectedSoundProfile (Some first) a2,
           [SetSelectedSoundProfile first])
        | [] => (a2, [])
        end in
      (ls2, setIsLoading false a3,
       [ Plain (SetIsLoading true); GetMriPatterns; SetMriPatterns mriData;
         GetSoundProfiles; SetSoundProfiles soundData ]
       ++ e2 ++ e3 ++ [Plain (SetIsLoading false)])
    end
  end.

(** [disabled] of the main button (line 365). *)
Definition mainButtonDisabled (a : App Sound) : bool :=
  isLoading a
  || (match selectedMRIPattern a with None => true | Some _ => false end
      || match selectedSoundProfile a with None => true | Some _ => false end).

(** [onPress] of the main button (line 364); a disabled button does not
    call it. *)
Definition onMainButtonPress (xs : StartOutcome Sound) (xp : StopOutcome)
           (a : App Sound) : App Sound * list Event :=
  if mainButtonDisabled a then (a, [])
  else if isPlaying a then Native.pressStop xp a
       else Native.startSession xs a.

(** [onValueChange] of the slider (lines 346-356), disabled while playing. *)
Definition onSliderChange (newVolume : Q) (a : App Sound)
  : App Sound * list Event :=
  if isPlaying a then (a, []) else Native.adjustVolume newVolume a.

(** [onPress] of a pattern card (line 307) and of a profile card (line 329);
    the selectors are rendered only while not playing (lines 421-426). *)
Definition onPatternCardPress (pattern : MRIPattern) (a : App Sound)
  : App Sound :=
  if isPlaying a then a else setSelectedMRIPattern (Some pattern) a.

Definition onProfileCardPress (profile : SoundProfile) (a : App Sound)
  : App Sound :=
  if isPlaying a then a else setSelectedSoundProfile (Some profile) a.

(** What can happen to the mounted component. *)
Inductive Action :=
| DataLoads (x : LoadOutcome)
| PressMain (xs : StartOutcome Sound) (xp : StopOutcome)
| Slide (newVolume : Q)
| PickPattern (pattern : MRIPattern)
| PickProfile (profile : SoundProfile)
| TimerFires (x : StopOutcome) (h : nat).

Definition perform (act : Action) (a : App Sound) : App Sound * list Event :=
  match act with
  | DataLoads x => (snd (fst (loadData x (mkLists [] []) a)), [])
  | PressMain xs xp => onMainButtonPress xs xp a
  | Slide v => onSliderChange v a
  | PickPattern p => (onPatternCardPress p a, [])
  | PickProfile p => (onProfileCardPress p a, [])
  | TimerFires x h => Native.fire x h a
  end.

Fixpoint performAll (acts : list Action) (a : App Sound)
  : App Sound * list Event :=
  match acts with
  | [] => (a, [])
  | act :: rest =>
    let '(a1, es1) := perform act a in
    let '(a2, es2) := performAll rest a1 in
    (a2, es1 ++ es2)
  end.

End NativeControls.

(** ** The clock display *)

(** [n.toString()] for a whole number [n >= 0]. *)
Definition toString (n : nat) : string :=
  NilEmpty.string_of_uint (Nat.to_uint n).

Fixpoint repeatChar (n : nat) (c : ascii) : string :=
  match n with
  | O => EmptyString
  | S n' => String c (repeatChar n' c)
  end.

(** [s.padStart(targetLength, c)] for a one-character pad string. *)
Definition padStart (targetLength : nat) (c : ascii) (s : string) : string :=
  (repeatChar (targetLength - String.length s) c ++ s)%string.

(** [formatTime] (index.tsx 290-294, web.tsx 326-330) on a whole number of
    seconds, as [timeRemaining] holds for a pattern of whole seconds. *)
Definition formatTime (seconds : nat) : string :=
  let mins := (seconds / 60)%nat in
  let secs := (seconds mod 60)%nat in
  (toString mins ++ ":" ++ padStart 2 "0" (toString secs))%string.

(** ** Notions used in the further statements *)

(** At most one interval is scheduled; it is the one the ref names, and
    the closure it carries saw no session. *)
Definition SingleSchedule (a : App Sound) : Prop :=
  (intervals a = [] \/
   exists h c l, intervals a = [(h, (c, l))] /\ progressTimer a = Some h
                 /\ isPlaying a = true /\ c_currentSession c = None) /\
  (isPlaying a = false -> currentSession a = None).

(** The levels a closure can hand to the sink stay within its base volume:
    base volume in [0,1] and every intensity in [0,120]. *)
Definition WithinReference {sink : Type} (c : Closure sink) : Prop :=
  0 <= c_volume c /\ c_volume c <= 1 /\
  forall s, In s (sequences c) -> 0 <= intensity s /\ intensity s <= 120.

(** * Properties *)

(** ** Arithmetic of the two clamped displays *)

Lemma quotient_le_one (e : Z) (T : Q) :
  0 < T -> (inject_Z e / T <= 1 <-> inject_Z e <= T).
Proof.
  intros HT; split; intros H.
  - apply (Qmult_le_compat_r _ _ T) in H; [|lra].
    rewrite Qmult_1_l in H.
    assert (E : inject_Z e / T * T == inject_Z e) by (field; lra).
    rewrite E in H; exact H.
  - apply Qle_shift_div_r; [exact HT | lra].
Qed.

Lemma quotient_lt_one (e : Z) (T : Q) :
  0 < T -> (inject_Z e / T < 1 <-> inject_Z e < T).
Proof.
  intros HT; split; intros H.
  - destruct (Qlt_le_dec (inject_Z e) T) as [L | L]; [exact L |].
    assert (1 <= inject_Z e / T)
      by (apply Qle_shift_div_l; [exact HT | lra]).
    lra.
  - apply Qlt_shift_div_r; [exact HT | lra].
Qed.

Lemma quotient_mono (e1 e2 : Z) (T : Q) :
  0 < T -> (e1 <= e2)%Z -> inject_Z e1 / T <= inject_Z e2 / T.
Proof.
  intros HT H. unfold Qdiv.
  apply Qmult_le_compat_r.
  - rewrite <- Zle_Qle; exact H.
  - apply Qlt_le_weak, Qinv_lt_0_compat; exact HT.
Qed.

Lemma quotient_nonneg (e : Z) (T : Q) :
  0 < T -> (0 <= e)%Z -> 0 <= inject_Z e / T.
Proof.
  intros HT H. apply Qle_shift_div_l; [exact HT |].
  rewrite Qmult_0_l. change 0 with (inject_Z 0). rewrite <- Zle_Qle; exact H.
Qed.

Lemma positive_not_zero (T : Q) : 0 < T -> Qeq_bool T 0 = false.
Proof.
  intros HT. destruct (Qeq_bool T 0) eqn:E; [|reflexivity].
  apply Qeq_bool_iff in E. lra.
Qed.

Lemma clampedProgress_formula (e : Z) (T : Q) :
  0 < T -> clampedProgress e T == Qmin 100 (inject_Z e / T * 100).
Proof.
  intros HT. unfold clampedProgress. rewrite (positive_not_zero T HT).
  apply Q.min_comm.
Qed.

Lemma clampedProgress_bounds (e : Z) (T : Q) :
  0 < T -> (0 <= e)%Z -> 0 <= clampedProgress e T /\ clampedProgress e T <= 100.
Proof.
  intros HT He. unfold clampedProgress. rewrite (positive_not_zero T HT).
  pose proof (quotient_nonneg e T HT He) as Hq.
  destruct (Q.min_spec (inject_Z e / T * 100) 100) as [[L E] | [L E]];
    rewrite E; lra.
Qed.

Lemma clampedProgress_mono (e1 e2 : Z) (T : Q) :
  0 < T -> (e1 <= e2)%Z -> clampedProgress e1 T <= clampedProgress e2 T.
Proof.
  intros HT He. unfold clampedProgress. rewrite (positive_not_zero T HT).
  pose proof (quotient_mono e1 e2 T HT He) as Hq.
  destruct (Q.min_spec (inject_Z e1 / T * 100) 100) as [[L1 E1] | [L1 E1]];
    destruct (Q.min_spec (inject_Z e2 / T * 100) 100) as [[L2 E2] | [L2 E2]];
    rewrite E1, E2; lra.
Qed.

Lemma clampedProgress_full (e : Z) (T : Q) :
  0 < T -> (clampedProgress e T == 100 <-> isComplete e T = true).
Proof.
  intros HT. unfold clampedProgress, isComplete.
  rewrite (positive_not_zero T HT), Qle_bool_iff.
  pose proof (quotient_le_one e T HT) as Hle.
  pose proof (quotient_lt_one e T HT) as Hlt.
  destruct (Q.min_spec (inject_Z e / T * 100) 100) as [[L E] | [L E]];
    rewrite E; split; intros H.
  - lra.
  - destruct (Qlt_le_dec (inject_Z e) T) as [C | C].
    + apply Hlt in C. lra.
    + assert (1 <= inject_Z e / T)
        by (apply Qle_shift_div_l; [exact HT | lra]).
      lra.
  - destruct (Qlt_le_dec (inject_Z e) T) as [C | C]; [|exact C].
    apply Hlt in C. lra.
  - reflexivity.
Qed.

Lemma clampedRemaining_formula (e : Z) (T : Q) :
  clampedRemaining e T == Qmax 0 (T - inject_Z e).
Proof. unfold clampedRemaining. apply Q.max_comm. Qed.

Lemma clampedRemaining_sum (e : Z) (T : Q) :
  inject_Z e <= T -> clampedRemaining e T + inject_Z e == T.
Proof.
  intros H. unfold clampedRemaining.
  destruct (Q.max_spec (T - inject_Z e) 0) as [[L E] | [L E]]; rewrite E; lra.
Qed.

Lemma clampedRemaining_zero (e : Z) (T : Q) :
  T <= inject_Z e -> clampedRemaining e T == 0.
Proof.
  intros H. unfold clampedRemaining.
  destruct (Q.max_spec (T - inject_Z e) 0) as [[L E] | [L E]]; rewrite E; lra.
Qed.

(** ** One tick *)

Ltac tick_cases :=
  repeat match goal with
         | |- context [match sequences ?c with _ => _ end] =>
           destruct (sequences c) eqn:?
         | |- context [match nth_error ?s ?i with _ => _ end] =>
           destruct (nth_error s i) eqn:?
         | |- context [if ?b then _ else _] => destruct b eqn:?
         | |- context [match c_sink ?c with _ => _ end] =>
           destruct (c_sink c) eqn:?
         end.

Lemma native_tick_locals (c : Closure Sound) (l : Locals) :
  locals (Native.intervalCallback c l) = nextLocals (sequences c) l.
Proof.
  unfold Native.intervalCallback, nextLocals.
  destruct (sequences c) as [|s0 ss] eqn:Hs.
  - destruct (sequenceIndex l); reflexivity.
  - destruct (nth_error (s0 :: ss) (sequenceIndex l)); [|reflexivity].
    match goal with
    | |- context [if ?b then _ else _] => destruct b
    end; reflexivity.
Qed.

Lemma web_tick_locals (c : Closure AudioElement) (l : Locals) :
  locals (Web.intervalCallback c l) = nextLocals (sequences c) l.
Proof.
  unfold Web.intervalCallback, nextLocals.
  destruct (sequences c) as [|s0 ss] eqn:Hs.
  - destruct (sequenceIndex l); reflexivity.
  - destruct (nth_error (s0 :: ss) (sequenceIndex l)); [|reflexivity].
    match goal with
    | |- context [if ?b then _ else _] => destruct b
    end; reflexivity.
Qed.

Lemma native_tick_stop (c : Closure Sound) (l : Locals) :
  autoStop (Native.intervalCallback c l)
  = isComplete (currentTime l + 1) (totalDuration c).
Proof. unfold Native.intervalCallback. tick_cases; reflexivity. Qed.

Lemma web_tick_stop (c : Closure AudioElement) (l : Locals) :
  autoStop (Web.intervalCallback c l)
  = isComplete (currentTime l + 1) (totalDuration c).
Proof. unfold Web.intervalCallback. tick_cases; reflexivity. Qed.

Lemma native_tick_progress (c : Closure Sound) (l : Locals) :
  firstProgress (emitted (Native.intervalCallback c l))
  = Some (clampedProgress (currentTime l + 1) (totalDuration c)).
Proof. unfold Native.intervalCallback. tick_cases; reflexivity. Qed.

Lemma web_tick_progress (c : Closure AudioElement) (l : Locals) :
  firstProgress (emitted (Web.intervalCallback c l))
  = Some (clampedProgress (currentTime l + 1) (totalDuration c)).
Proof. unfold Web.intervalCallback. tick_cases; reflexivity. Qed.

Lemma native_tick_remaining (c : Closure Sound) (l : Locals) :
  firstRemaining (emitted (Native.intervalCallback c l))
  = Some (clampedRemaining (currentTime l + 1) (totalDuration c)).
Proof. unfold Native.intervalCallback. tick_cases; reflexivity. Qed.

Lemma web_tick_remaining (c : Closure AudioElement) (l : Locals) :
  firstRemaining (emitted (Web.intervalCallback c l))
  = Some (clampedRemaining (currentTime l + 1) (totalDuration c)).
Proof. unfold Web.intervalCallback. tick_cases; reflexivity. Qed.

Lemma nextLocals_time (seqs : list Sequence) (l : Locals) :
  currentTime (nextLocals seqs l) = (currentTime l + 1)%Z.
Proof.
  unfold nextLocals. destruct (nth_error seqs (sequenceIndex l)); [|reflexivity].
  match goal with |- context [if ?b then _ else _] => destruct b end;
    reflexivity.
Qed.

Lemma nextLocals_index_step (seqs : list Sequence) (l : Locals) :
  sequenceIndex (nextLocals seqs l) = sequenceIndex l \/
  (sequenceIndex (nextLocals seqs l) = S (sequenceIndex l) /\
   (S (sequenceIndex l) < List.length seqs)%nat).
Proof.
  unfold nextLocals.
  destruct (nth_error seqs (sequenceIndex l)); [|left; reflexivity].
  match goal with |- context [if ?b then _ else _] => destruct b eqn:E end;
    [right | left; reflexivity].
  apply andb_true_iff in E. destruct E as [_ E].
  apply Z.ltb_lt in E. simpl. split; [reflexivity | lia].
Qed.

(** ** Runs of ticks *)

Section Run.
Variable cb : Locals -> Tick.
Variable seqs : list Sequence.
Variable T : Q.
Hypothesis cb_locals : forall l, locals (cb l) = nextLocals seqs l.
Hypothesis cb_stop :
  forall l, autoStop (cb l) = isComplete (currentTime l + 1) T.
Hypothesis cb_progress :
  forall l, firstProgress (emitted (cb l))
            = Some (clampedProgress (currentTime l + 1) T).
Hypothesis cb_remaining :
  forall l, firstRemaining (emitted (cb l))
            = Some (clampedRemaining (currentTime l + 1) T).

Lemma ticks_time (n : nat) :
  currentTime (ticks cb n startLocals) = Z.of_nat n.
Proof.
  induction n as [|n IH]; [reflexivity |].
  cbn [ticks]. rewrite cb_locals, nextLocals_time, IH. lia.
Qed.

Lemma ticks_index_mono (n m : nat) :
  (n <= m)%nat ->
  (sequenceIndex (ticks cb n startLocals)
   <= sequenceIndex (ticks cb m startLocals))%nat.
Proof.
  induction 1 as [|m _ IH]; [lia |].
  cbn [ticks]. rewrite cb_locals.
  destruct (nextLocals_index_step seqs (ticks cb m startLocals))
    as [E | [E _]]; rewrite E; lia.
Qed.

Lemma ticks_index_bound (n : nat) :
  (0 < List.length seqs)%nat ->
  (sequenceIndex (ticks cb n startLocals) <= List.length seqs - 1)%nat.
Proof.
  intros Hne. induction n as [|n IH]; [simpl; lia |].
  cbn [ticks]. rewrite cb_locals.
  destruct (nextLocals_index_step seqs (ticks cb n startLocals))
    as [E | [E B]]; rewrite E; lia.
Qed.

Lemma nthTick_time (n : nat) :
  (1 <= n)%nat -> (currentTime (ticks cb (n - 1) startLocals) + 1)%Z
                  = Z.of_nat n.
Proof. intros Hn. rewrite ticks_time. lia. Qed.

Lemma run_displays : 0 < T -> DisplaysFollowFormulas cb T.
Proof.
  intros HT n Hn. cbv zeta. unfold nthTick.
  rewrite cb_locals, nextLocals_time, cb_progress, cb_remaining, cb_stop.
  rewrite (nthTick_time n Hn).
  split; [reflexivity |].
  exists (clampedProgress (Z.of_nat n) T),
         (clampedRemaining (Z.of_nat n) T).
  assert (Hpos : (0 <= Z.of_nat n)%Z) by lia.
  destruct (clampedProgress_bounds (Z.of_nat n) T HT Hpos) as [B0 B1].
  repeat split; try reflexivity; try assumption.
  - apply clampedProgress_formula; exact HT.
  - apply clampedRemaining_formula.
  - apply clampedProgress_full; exact HT.
  - apply clampedProgress_full; exact HT.
  - unfold isComplete. apply Qle_bool_iff.
  - unfold isComplete. apply Qle_bool_iff.
  - apply clampedRemaining_sum.
  - apply clampedRemaining_zero.
  - intros m Hm.
    exists (clampedProgress (Z.of_nat m) T). split.
    + rewrite cb_progress, (nthTick_time m); [reflexivity | lia].
    + apply clampedProgress_mono; [exact HT | lia].
Qed.
End Run.

(** ** The phase index (C5) *)

(** C5. Over a run, from the zeroed [let] variables on, the phase index
    never decreases from one tick to a later one and never exceeds
    [phases.length - 1], for every non-empty phase list, in both variants. *)
Theorem phase_index_monotone_bounded
        (c : Closure Sound) (w : Closure AudioElement) (n m : nat) :
  (0 < List.length (sequences c))%nat ->
  (0 < List.length (sequences w))%nat ->
  (n <= m)%nat ->
  let native k := sequenceIndex (ticks (Native.intervalCallback c) k startLocals) in
  let web k := sequenceIndex (ticks (Web.intervalCallback w) k startLocals) in
  (native n <= native m <= List.length (sequences c) - 1)%nat /\
  (web n <= web m <= List.length (sequences w) - 1)%nat.
Proof.
  intros Hc Hw Hnm native web. subst native web. cbv beta.
  repeat split.
  - apply (ticks_index_mono _ (sequences c)); [apply native_tick_locals | exact Hnm].
  - apply (ticks_index_bound _ (sequences c)); [apply native_tick_locals | exact Hc].
  - apply (ticks_index_mono _ (sequences w)); [apply web_tick_locals | exact Hnm].
  - apply (ticks_index_bound _ (sequences w)); [apply web_tick_locals | exact Hw].
Qed.

Lemma phase_index_monotone_bounded_witness :
  let native k :=
    sequenceIndex (ticks (Native.intervalCallback (exampleClosure (Some 0%nat)))
                         k startLocals) in
  let web k :=
    sequenceIndex (ticks (Web.intervalCallback
                            (exampleClosure (Some (mkAudio true))))
                         k startLocals) in
  (native 2%nat <= native 5%nat <= 1)%nat /\ (web 2%nat <= web 5%nat <= 1)%nat.
Proof.
  apply (phase_index_monotone_bounded
           (exampleClosure (Some 0%nat))
           (exampleClosure (Some (mkAudio true))) 2 5); simpl; lia.
Defined.

(** ** Progress and remaining time (C6) *)

(** C6, as the code has it. In a run over a positive total duration, every
    tick shows [min(100, elapsed / total * 100)] as progress and
    [max(0, total - elapsed)] as remaining time; progress lies in [0,100],
    never decreases, is 100 exactly on the ticks that stop the run (elapsed
    at or beyond the total), and remaining plus elapsed is the total until
    the remaining time is clamped at 0.  Both variants. *)
Theorem displays_follow_formulas
        (c : Closure Sound) (w : Closure AudioElement) :
  0 < totalDuration c ->
  0 < totalDuration w ->
  DisplaysFollowFormulas (Native.intervalCallback c) (totalDuration c) /\
  DisplaysFollowFormulas (Web.intervalCallback w) (totalDuration w).
Proof.
  intros Hc Hw. split.
  - apply (run_displays _ (sequences c)); auto using native_tick_locals,
      native_tick_stop, native_tick_progress, native_tick_remaining.
  - apply (run_displays _ (sequences w)); auto using web_tick_locals,
      web_tick_stop, web_tick_progress, web_tick_remaining.
Qed.

Lemma displays_follow_formulas_witness :
  DisplaysFollowFormulas
    (Native.intervalCallback (exampleClosure (Some 0%nat))) 6 /\
  DisplaysFollowFormulas
    (Web.intervalCallback (exampleClosure (Some (mkAudio true)))) 6.
Proof.
  apply (displays_follow_formulas (exampleClosure (Some 0%nat))
                                  (exampleClosure (Some (mkAudio true))));
    reflexivity.
Defined.

(** C6, as stated, fails on a run the component performs: started with a
    pattern of minus one minute, the session is playing with its interval
    scheduled, and the first tick shows a progress below 0, outside
    [0,100]. *)
Lemma negative_duration_progress_below_zero :
  let a := fst (Native.startSession okStart (ready negativePattern (1 # 2))) in
  exists c p,
    findInterval 1 (intervals a) = Some (c, startLocals) /\
    isPlaying a = true /\
    firstProgress (emitted (nthTick (Native.intervalCallback c) 1)) = Some p /\
    p < 0 /\
    ~ (0 <= p /\ p <= 100).
Proof.
  eexists _, _. split; [reflexivity |]. split; [reflexivity |].
  split; [reflexivity |]. split; [reflexivity |].
  intros [H _]. vm_compute in H. apply H. reflexivity.
Qed.

(** ** The two variants (C10) *)

Lemma tick_observations_agree
      (total : Q) (seqs : list Sequence) (vol : Q) (present : bool)
      (s : Sound) (el : AudioElement) (cs cs' : option UserSession)
      (l : Locals) :
  observe (Native.intervalCallback
             (mkClosure total seqs vol (if present then Some s else None) cs) l)
  = observe (Web.intervalCallback
               (mkClosure total seqs vol (if present then Some el else None) cs')
               l).
Proof.
  unfold observe, Native.intervalCallback, Web.intervalCallback. cbn [sequences
    totalDuration c_volume c_sink].
  destruct seqs as [|s0 ss]; [reflexivity |].
  destruct (nth_error (s0 :: ss) (sequenceIndex l)); [|reflexivity].
  match goal with |- context [if ?b then _ else _] => destruct b end;
    destruct present; try destruct (gainNode el); reflexivity.
Qed.

Lemma ticks_agree (c : Closure Sound) (w : Closure AudioElement) (n : nat) :
  sequences c = sequences w ->
  ticks (Native.intervalCallback c) n startLocals
  = ticks (Web.intervalCallback w) n startLocals.
Proof.
  intros E. induction n as [|n IH]; [reflexivity |].
  cbn [ticks]. rewrite native_tick_locals, web_tick_locals, IH, E. reflexivity.
Qed.

(** C10. For every pattern, base volume and audio sink (present in both
    variants or absent in both), the intervals that the two variants of
    [startMRISimulation] schedule produce, tick by tick, the same elapsed
    seconds, phase index, progress, remaining time, phase label and sink
    level, and call [stopSession] on the same ticks. *)
Theorem variants_agree
        (p : MRIPattern) (v : Q) (present : bool)
        (s : Sound) (el : AudioElement) :
  let rn : App Sound :=
    setAudioSink (if present then Some s else None) (ready p v) in
  let rw : App AudioElement :=
    setAudioSink (if present then Some el else None) (ready p v) in
  exists cn cw,
    intervals (fst (Native.startMRISimulation rn rn))
    = [(1%nat, (cn, startLocals))] /\
    intervals (fst (Web.startMRISimulation rw rw))
    = [(1%nat, (cw, startLocals))] /\
    forall n : nat,
      observe (nthTick (Native.intervalCallback cn) n)
      = observe (nthTick (Web.intervalCallback cw) n).
Proof.
  intros rn rw.
  exists (mkClosure (duration_minutes p * 60) (sequence_pattern p) v
                    (if present then Some s else None) None),
         (mkClosure (duration_minutes p * 60) (sequence_pattern p) v
                    (if present then Some el else None) None).
  split; [reflexivity |]. split; [reflexivity |].
  intros n. unfold nthTick.
  rewrite (ticks_agree _ (mkClosure (duration_minutes p * 60)
                                    (sequence_pattern p) v
                                    (if present then Some el else None) None))
    by reflexivity.
  apply tick_observations_agree.
Qed.

(** ** The phase rule (C4) *)

(** The loop of the specification never needs more than [phases.length]
    iterations: one more unit of fuel changes nothing. *)
Lemma specPhaseLoop_enough (phases : list Sequence) (fuel idx : nat) (e : Z) :
  (List.length phases <= fuel + idx)%nat ->
  specPhaseLoop (S fuel) phases idx e = specPhaseLoop fuel phases idx e.
Proof.
  revert idx e. induction fuel as [|fuel IH]; intros idx e H.
  - cbn [specPhaseLoop].
    assert (N : nth_error phases idx = None) by (apply nth_error_None; lia).
    rewrite N. reflexivity.
  - cbn [specPhaseLoop] in *.
    destruct (nth_error phases idx); [|reflexivity].
    match goal with |- context [if ?b then _ else _] => destruct b end;
      [|reflexivity].
    apply IH. lia.
Qed.

Lemma nextLocals_position (seqs : list Sequence) (l : Locals) (cur : Sequence) :
  nth_error seqs (sequenceIndex l) = Some cur ->
  let elapsed := (currentTime l + 1 - sequenceStartTime l)%Z in
  (duration cur <= inject_Z elapsed /\
   (sequenceIndex l < List.length seqs - 1)%nat ->
   phasePosition (nextLocals seqs l) = (S (sequenceIndex l), 0%Z)) /\
  (~ (duration cur <= inject_Z elapsed /\
      (sequenceIndex l < List.length seqs - 1)%nat) ->
   phasePosition (nextLocals seqs l) = (sequenceIndex l, elapsed)).
Proof.
  intros Hcur elapsed. subst elapsed. unfold nextLocals. rewrite Hcur.
  match goal with |- context [if ?b then _ else _] => destruct b eqn:E end.
  - split; intros H.
    + unfold phasePosition. cbn. f_equal. lia.
    + exfalso. apply H. apply andb_true_iff in E. destruct E as [E1 E2].
      apply Qle_bool_iff in E1. apply Z.ltb_lt in E2. split; [exact E1 | lia].
  - split; intros H.
    + exfalso. destruct H as [H1 H2].
      apply Qle_bool_iff in H1. rewrite H1 in E.
      assert (E2 : (Z.of_nat (sequenceIndex l)
                    <? Z.of_nat (List.length seqs) - 1)%Z = true)
        by (apply Z.ltb_lt; lia).
      rewrite E2 in E. discriminate.
    + reflexivity.
Qed.

Lemma nextLocals_matches_loop (seqs : list Sequence) (l : Locals) :
  (sequenceIndex l < List.length seqs)%nat ->
  (forall s, In s seqs -> 0 < duration s) ->
  phasePosition (nextLocals seqs l)
  = specPhaseAdvance seqs (sequenceIndex l)
                     (currentTime l + 1 - sequenceStartTime l).
Proof.
  intros Hidx Hpos. unfold specPhaseAdvance, nextLocals.
  destruct (List.length seqs) as [|fuel] eqn:Hlen; [lia |].
  cbn [specPhaseLoop].
  destruct (nth_error seqs (sequenceIndex l)) as [cur|] eqn:Hcur.
  2:{ apply nth_error_None in Hcur. lia. }
  rewrite Hlen.
  match goal with |- context [if ?b then _ else _] => destruct b eqn:E end.
  - apply andb_true_iff in E. destruct E as [_ E]. apply Z.ltb_lt in E.
    destruct fuel as [|fuel]; [lia |].
    cbn [specPhaseLoop].
    destruct (nth_error seqs (S (sequenceIndex l))) as [nxt|] eqn:Hnxt.
    2:{ apply nth_error_None in Hnxt. lia. }
    assert (P : 0 < duration nxt) by (apply Hpos; eapply nth_error_In; eauto).
    assert (F : Qle_bool (duration nxt) (inject_Z 0) = false).
    { destruct (Qle_bool (duration nxt) (inject_Z 0)) eqn:Q; [|reflexivity].
      apply Qle_bool_iff in Q. change (inject_Z 0) with 0 in Q. lra. }
    rewrite F. cbn. unfold phasePosition. cbn. f_equal. lia.
  - reflexivity.
Qed.

(** C4, as the code has it. A tick advances the phase at most once: when
    the time spent in the current phase has reached its duration and the
    phase is not the last one, the index goes up by one and the time spent
    restarts at 0 with no overflow carried; otherwise both are kept.  This
    is a single test, not a loop; it gives what the loop of the
    specification gives whenever every phase has a positive duration.  Both
    variants compute the same. *)
Theorem single_phase_advance_per_tick
        (c : Closure Sound) (w : Closure AudioElement) (l : Locals)
        (cur : Sequence) :
  sequences w = sequences c ->
  nth_error (sequences c) (sequenceIndex l) = Some cur ->
  let elapsed := (currentTime l + 1 - sequenceStartTime l)%Z in
  let after := locals (Native.intervalCallback c l) in
  locals (Web.intervalCallback w l) = after /\
  (duration cur <= inject_Z elapsed /\
   (sequenceIndex l < List.length (sequences c) - 1)%nat ->
   phasePosition after = (S (sequenceIndex l), 0%Z)) /\
  (~ (duration cur <= inject_Z elapsed /\
      (sequenceIndex l < List.length (sequences c) - 1)%nat) ->
   phasePosition after = (sequenceIndex l, elapsed)) /\
  ((forall s, In s (sequences c) -> 0 < duration s) ->
   phasePosition after
   = specPhaseAdvance (sequences c) (sequenceIndex l) elapsed).
Proof.
  intros Hw Hcur elapsed after. subst elapsed after.
  rewrite web_tick_locals, native_tick_locals, Hw.
  split; [reflexivity |].
  destruct (nextLocals_position (sequences c) l cur Hcur) as [A B].
  split; [exact A |]. split; [exact B |].
  apply nextLocals_matches_loop.
  apply nth_error_Some. rewrite Hcur. discriminate.
Qed.

Lemma single_phase_advance_per_tick_witness :
  let l := mkLocals 3 0 0 in
  let after :=
    locals (Native.intervalCallback (exampleClosure (Some 0%nat)) l) in
  locals (Web.intervalCallback (exampleClosure (Some (mkAudio true))) l)
  = after /\
  (4 <= inject_Z 4 /\ (0 < 2 - 1)%nat -> phasePosition after = (1%nat, 0%Z)) /\
  (~ (4 <= inject_Z 4 /\ (0 < 2 - 1)%nat) ->
   phasePosition after = (0%nat, 4%Z)) /\
  ((forall s, In s examplePhases -> 0 < duration s) ->
   phasePosition after = specPhaseAdvance examplePhases 0 4).
Proof.
  apply (single_phase_advance_per_tick
           (exampleClosure (Some 0%nat))
           (exampleClosure (Some (mkAudio true)))
           (mkLocals 3 0 0) (mkSequence 1500 4 120)); reflexivity.
Defined.

(** C4, as stated, fails on a phase of zero duration: the first tick over
    phases of 1, 0 and 5 seconds leaves the code on index 1, where the
    loop of the specification goes on to index 2. *)
Lemma zero_length_phase_not_skipped :
  phasePosition (locals (Native.intervalCallback zeroPhaseClosure startLocals))
  = (1%nat, 0%Z) /\
  specPhaseAdvance zeroPhasePhases 0 1 = (2%nat, 0%Z) /\
  phasePosition (locals (Native.intervalCallback zeroPhaseClosure startLocals))
  <> specPhaseAdvance zeroPhasePhases 0 1.
Proof.
  split; [reflexivity |]. split; [reflexivity |].
  vm_compute. discriminate.
Qed.

(** ** The example run (C2) *)

(** C2. On the tick that leaves a phase the code has already moved the
    index but still uses the sequence it read before the move.  In the
    example run, tick 4 moves the index to 1, yet its label pairs phase
    number 2 with the 1500 Hz of the first phase and the level handed to
    the sink is 0.5, the first phase's, not 0.25; the frequency and the
    level of the second phase appear on tick 5.  Both variants, whenever
    the closure holds a sink. *)
Theorem tick_four_uses_the_phase_it_left (s : Sound) (el : AudioElement) :
  let native := Native.intervalCallback (exampleClosure (Some s)) in
  let web := Web.intervalCallback (exampleClosure (Some el)) in
  sequenceIndex (ticks native 3 startLocals) = 0%nat /\
  sequenceIndex (ticks native 4 startLocals) = 1%nat /\
  sequenceIndex (ticks web 3 startLocals) = 0%nat /\
  sequenceIndex (ticks web 4 startLocals) = 1%nat /\
  firstLabel (emitted (nthTick native 4)) = Some (PhaseName 2 1500) /\
  firstLabel (emitted (nthTick web 4)) = Some (PhaseName 2 1500) /\
  firstLabel (emitted (nthTick native 5)) = Some (PhaseName 2 2000) /\
  firstLabel (emitted (nthTick web 5)) = Some (PhaseName 2 2000) /\
  levelAt native 4 (1 # 2) /\ ~ levelAt native 4 (1 # 4) /\
  levelAt web 4 (1 # 2) /\ ~ levelAt web 4 (1 # 4) /\
  levelAt native 5 (1 # 4) /\ levelAt web 5 (1 # 4).
Proof.
  intros native web. subst native web.
  repeat (split; [reflexivity |]).
  split; [eexists; split; reflexivity |].
  split.
  { intros [v [E Q1]]. vm_compute in E. injection E as <-.
    vm_compute in Q1. discriminate. }
  destruct el as [[|]].
  - split; [eexists; split; reflexivity |].
    split.
    { intros [v [E Q1]]. vm_compute in E. injection E as <-.
      vm_compute in Q1. discriminate. }
    split; eexists; split; reflexivity.
  - split; [eexists; split; reflexivity |].
    split.
    { intros [v [E Q1]]. vm_compute in E. injection E as <-.
      vm_compute in Q1. discriminate. }
    split; eexists; split; reflexivity.
Qed.

(** ** The component state under setters and timers *)

Section StateFacts.
Context {sink : Type}.
Implicit Type a : App sink.
Implicit Type t : list (nat * (Closure sink * Locals)).

Lemma applySetter_runtime (e : Event) a :
  intervals (applySetter e a) = intervals a /\
  progressTimer (applySetter e a) = progressTimer a /\
  nextTimerId (applySetter e a) = nextTimerId a /\
  audioSink (applySetter e a) = audioSink a.
Proof. destruct e; repeat split; reflexivity. Qed.

Lemma applySetters_runtime (es : list Event) a :
  intervals (applySetters es a) = intervals a /\
  progressTimer (applySetters es a) = progressTimer a /\
  nextTimerId (applySetters es a) = nextTimerId a /\
  audioSink (applySetters es a) = audioSink a.
Proof.
  revert a. induction es as [|e es IH]; intros a; [repeat split |].
  unfold applySetters in *. cbn [fold_left].
  destruct (IH (applySetter e a)) as (I1 & I2 & I3 & I4).
  destruct (applySetter_runtime e a) as (J1 & J2 & J3 & J4).
  rewrite I1, I2, I3, I4, J1, J2, J3, J4. repeat split.
Qed.

Lemma findInterval_store (h : nat) (c : Closure sink) (l l' : Locals) t :
  findInterval h t = Some (c, l) ->
  findInterval h (storeLocals h l' t) = Some (c, l').
Proof.
  induction t as [|[k [c0 l0]] t IH]; intros H; [discriminate |].
  cbn [findInterval storeLocals] in *.
  destruct (Nat.eqb k h) eqn:E.
  - injection H as -> ->. cbn [findInterval]. rewrite E. reflexivity.
  - cbn [findInterval]. rewrite E. apply IH, H.
Qed.

Lemma findInterval_remove (h : nat) t :
  findInterval h (removeInterval h t) = None.
Proof.
  induction t as [|[k v] t IH]; [reflexivity |].
  cbn [removeInterval]. destruct (Nat.eqb k h) eqn:E; [exact IH |].
  cbn [findInterval]. rewrite E. exact IH.
Qed.

Lemma removeInterval_twice (h : nat) t :
  removeInterval h (removeInterval h t) = removeInterval h t.
Proof.
  induction t as [|[k v] t IH]; [reflexivity |].
  cbn [removeInterval]. destruct (Nat.eqb k h) eqn:E; [exact IH |].
  cbn [removeInterval]. rewrite E, IH. reflexivity.
Qed.

Lemma findInterval_older (h : nat) (v : Closure sink * Locals) (k : nat) t :
  k <> h -> findInterval k (t ++ [(h, v)]) = findInterval k t.
Proof.
  intros N. induction t as [|[j w] t IH].
  - cbn. destruct (Nat.eqb h k) eqn:E; [|reflexivity].
    apply Nat.eqb_eq in E. congruence.
  - cbn [app findInterval]. rewrite IH. reflexivity.
Qed.

Lemma clearProgressTimer_twice a :
  clearProgressTimer (clearProgressTimer a) = clearProgressTimer a.
Proof.
  unfold clearProgressTimer. destruct a as [? ? ? ? ? ? ? ? ? ? pt iv ?].
  cbn. destruct pt as [h|]; cbn; [|reflexivity].
  unfold withIntervals. cbn. rewrite removeInterval_twice. reflexivity.
Qed.

Lemma clearProgressTimer_setters (es : list Event) a :
  clearProgressTimer (applySetters es a)
  = applySetters es (clearProgressTimer a).
Proof.
  revert a. induction es as [|e es IH]; intros a; [reflexivity |].
  unfold applySetters in *. cbn [fold_left]. rewrite IH. f_equal.
  unfold clearProgressTimer.
  destruct (applySetter_runtime e a) as (J1 & J2 & _).
  rewrite J1, J2. destruct (progressTimer a); [|reflexivity].
  destruct e; reflexivity.
Qed.

Lemma stopResets_twice a :
  applySetters stopResets (applySetters stopResets a)
  = applySetters stopResets a.
Proof. reflexivity. Qed.
End StateFacts.

(** ** Stopping *)

Lemma native_stop_resolved (sound : option Sound) (cs : option UserSession)
      (x : StopOutcome) (a : App Sound) :
  stopResolves x = true ->
  completeResolves x = true ->
  Native.stopSession sound cs x a
  = (applySetters stopResets (clearProgressTimer a),
     match sound with Some s => [StopAsync s] | None => [] end
     ++ match cs with
        | Some s => [PutSessionComplete (session_id s)]
        | None => []
        end
     ++ stopResets).
Proof.
  intros H1 H2. unfold Native.stopSession. rewrite H1, H2.
  destruct sound, cs; reflexivity.
Qed.

Lemma web_stop_resolved (audio : option AudioElement) (cs : option UserSession)
      (x : StopOutcome) (a : App AudioElement) :
  stopResolves x = true ->
  completeResolves x = true ->
  Web.stopSession audio cs x a
  = (applySetters stopResets (clearProgressTimer a),
     match audio with Some el => [AudioPause el] | None => [] end
     ++ match cs with
        | Some s => [PutSessionComplete (session_id s)]
        | None => []
        end
     ++ stopResets).
Proof.
  intros H1 H2. unfold Web.stopSession. rewrite H1, H2.
  destruct audio, cs; reflexivity.
Qed.

Lemma stopped_state_is_fixed {sink : Type} (a : App sink) :
  applySetters stopResets
               (clearProgressTimer
                  (applySetters stopResets (clearProgressTimer a)))
  = applySetters stopResets (clearProgressTimer a).
Proof.
  rewrite clearProgressTimer_setters, clearProgressTimer_twice.
  apply stopResets_twice.
Qed.

Lemma native_stop_again (sound : option Sound) (cs : option UserSession)
      (x' : StopOutcome) (a : App Sound) :
  let a1 := applySetters stopResets (clearProgressTimer a) in
  fst (Native.stopSession sound cs x' a1) = a1.
Proof.
  intros a1. pose proof (stopped_state_is_fixed a) as Fix. fold a1 in Fix.
  assert (Cl : clearProgressTimer a1 = a1).
  { subst a1. rewrite clearProgressTimer_setters, clearProgressTimer_twice.
    reflexivity. }
  unfold Native.stopSession.
  destruct sound, (stopResolves x'), cs, (completeResolves x'); cbn [fst];
    first [reflexivity | exact Cl | exact Fix].
Qed.

Lemma web_stop_again (audio : option AudioElement) (cs : option UserSession)
      (x' : StopOutcome) (b : App AudioElement) :
  let b1 := applySetters stopResets (clearProgressTimer b) in
  fst (Web.stopSession audio cs x' b1) = b1.
Proof.
  intros b1. pose proof (stopped_state_is_fixed b) as Fix. fold b1 in Fix.
  assert (Cl : clearProgressTimer b1 = b1).
  { subst b1. rewrite clearProgressTimer_setters, clearProgressTimer_twice.
    reflexivity. }
  unfold Web.stopSession.
  destruct audio, (stopResolves x'), cs, (completeResolves x'); cbn [fst];
    first [reflexivity | exact Cl | exact Fix].
Qed.

(** C9, as the code has it. Calling the same [stopSession] twice in a row
    (the handler of one render, with the sound and session that render
    holds) is idempotent on the state only.  After a first call whose
    awaited calls resolved, the second call leaves the component state
    exactly as it is, not playing, whatever its own awaited calls do; but
    when they resolve it emits again everything the first call emitted:
    the audio stop when a sink is held, the session-complete request when
    a session is held, and the five resets.  Both variants. *)
Theorem repeated_stop_keeps_state_only
        (x x' : StopOutcome)
        (sound : option Sound) (audio : option AudioElement)
        (cs : option UserSession)
        (a : App Sound) (b : App AudioElement) :
  stopResolves x = true ->
  completeResolves x = true ->
  let completeEvents :=
    match cs with
    | Some s => [PutSessionComplete (session_id s)]
    | None => []
    end in
  let a1 := fst (Native.stopSession sound cs x a) in
  let b1 := fst (Web.stopSession audio cs x b) in
  (fst (Native.stopSession sound cs x' a1) = a1 /\ isPlaying a1 = false /\
   (stopResolves x' = true -> completeResolves x' = true ->
    snd (Native.stopSession sound cs x' a1)
    = snd (Native.stopSession sound cs x a) /\
    snd (Native.stopSession sound cs x' a1)
    = match sound with Some s => [StopAsync s] | None => [] end
      ++ completeEvents ++ stopResets)) /\
  (fst (Web.stopSession audio cs x' b1) = b1 /\ isPlaying b1 = false /\
   (stopResolves x' = true -> completeResolves x' = true ->
    snd (Web.stopSession audio cs x' b1)
    = snd (Web.stopSession audio cs x b) /\
    snd (Web.stopSession audio cs x' b1)
    = match audio with Some el => [AudioPause el] | None => [] end
      ++ completeEvents ++ stopResets)).
Proof.
  intros H1 H2 completeEvents a1 b1.
  assert (Ea : a1 = applySetters stopResets (clearProgressTimer a)).
  { subst a1. rewrite (native_stop_resolved _ _ x a H1 H2). reflexivity. }
  assert (Eb : b1 = applySetters stopResets (clearProgressTimer b)).
  { subst b1. rewrite (web_stop_resolved _ _ x b H1 H2). reflexivity. }
  split.
  - split; [rewrite Ea; apply native_stop_again |].
    split; [rewrite Ea; reflexivity |].
    intros R1 R2.
    rewrite (native_stop_resolved _ _ x' a1 R1 R2),
            (native_stop_resolved _ _ x a H1 H2).
    split; reflexivity.
  - split; [rewrite Eb; apply web_stop_again |].
    split; [rewrite Eb; reflexivity |].
    intros R1 R2.
    rewrite (web_stop_resolved _ _ x' b1 R1 R2),
            (web_stop_resolved _ _ x b H1 H2).
    split; reflexivity.
Qed.

Lemma repeated_stop_keeps_state_only_witness :
  let sound : option Sound := Some 7%nat in
  let audio := Some (mkAudio true) in
  let cs := Some (mkUserSession "s1") in
  let a1 := fst (Native.stopSession sound cs allResolve exampleRunning) in
  let b1 := fst (Web.stopSession audio cs allResolve webRunning) in
  (fst (Native.stopSession sound cs allResolve a1) = a1 /\
   isPlaying a1 = false /\
   (true = true -> true = true ->
    snd (Native.stopSession sound cs allResolve a1)
    = snd (Native.stopSession sound cs allResolve exampleRunning) /\
    snd (Native.stopSession sound cs allResolve a1)
    = [StopAsync 7%nat] ++ [PutSessionComplete "s1"] ++ stopResets)) /\
  (fst (Web.stopSession audio cs allResolve b1) = b1 /\
   isPlaying b1 = false /\
   (true = true -> true = true ->
    snd (Web.stopSession audio cs allResolve b1)
    = snd (Web.stopSession audio cs allResolve webRunning) /\
    snd (Web.stopSession audio cs allResolve b1)
    = [AudioPause (mkAudio true)] ++ [PutSessionComplete "s1"] ++ stopResets)).
Proof.
  apply (repeated_stop_keeps_state_only
           allResolve allResolve (Some 7%nat) (Some (mkAudio true))
           (Some (mkUserSession "s1")) exampleRunning webRunning);
    reflexivity.
Defined.

(** C9, as stated, fails: the Stop handler of the playing render holds the
    loaded sound and the session, and called a second time in a row it
    stops the audio again, sends the session-complete request again and
    repeats the five resets. *)
Lemma second_stop_emits_again :
  let a1 := fst (Native.pressStop allResolve exampleRunning) in
  let again :=
    snd (Native.stopSession (audioSink exampleRunning)
                            (currentSession exampleRunning) allResolve a1) in
  again = StopAsync 7%nat :: PutSessionComplete "s1" :: stopResets /\
  again <> [] /\
  existsb isSessionComplete again = true /\
  snd (Web.stopSession (audioSink webRunning) (currentSession webRunning)
                       allResolve (fst (Web.pressStop allResolve webRunning)))
  = AudioPause (mkAudio true) :: PutSessionComplete "s1" :: stopResets.
Proof.
  split; [reflexivity |]. split; [vm_compute; discriminate |].
  split; reflexivity.
Qed.

(** ** The volume slider (C8) *)

(** C8, as the code has it. [adjustVolume] has no range check: for every
    value it stores the value as the base scale, reports no error, leaves
    the rest of the component state (timers included) as it is, and, when a
    sink is loaded and a session is playing, hands the value itself to the
    sink.  Both variants. *)
Theorem adjustVolume_stores_any_scale
        (newVolume : Q) (a : App Sound) (b : App AudioElement) :
  (fst (Native.adjustVolume newVolume a) = setVolume newVolume a /\
   volume (fst (Native.adjustVolume newVolume a)) = newVolume /\
   intervals (fst (Native.adjustVolume newVolume a)) = intervals a /\
   isPlaying (fst (Native.adjustVolume newVolume a)) = isPlaying a /\
   existsb isError (snd (Native.adjustVolume newVolume a)) = false /\
   sinkLevels (snd (Native.adjustVolume newVolume a))
   = match audioSink a with
     | Some _ => if isPlaying a then [newVolume] else []
     | None => []
     end) /\
  (fst (Web.adjustVolume newVolume b) = setVolume newVolume b /\
   volume (fst (Web.adjustVolume newVolume b)) = newVolume /\
   intervals (fst (Web.adjustVolume newVolume b)) = intervals b /\
   isPlaying (fst (Web.adjustVolume newVolume b)) = isPlaying b /\
   existsb isError (snd (Web.adjustVolume newVolume b)) = false /\
   sinkLevels (snd (Web.adjustVolume newVolume b))
   = match audioSink b with
     | Some _ => if isPlaying b then [newVolume] else []
     | None => []
     end).
Proof.
  unfold Native.adjustVolume, Web.adjustVolume. cbn [fst snd].
  split; repeat split.
  - destruct (audioSink a); [destruct (isPlaying a)|]; reflexivity.
  - destruct (audioSink a); [destruct (isPlaying a)|]; reflexivity.
  - destruct (audioSink b) as [el|];
      [destruct (isPlaying b); [destruct (gainNode el)|]|]; reflexivity.
  - destruct (audioSink b) as [el|];
      [destruct (isPlaying b); [destruct (gainNode el)|]|]; reflexivity.
Qed.

(** C8, as stated, fails: [adjustVolume(1.5)] reports no error, stores 1.5
    and, during a session with a sink, hands 1.5 to the sink. *)
Lemma out_of_range_scale_is_accepted :
  let native := Native.adjustVolume (3 # 2) (setIsPlaying true exampleRunning) in
  let web := Web.adjustVolume (3 # 2) webRunning in
  volume (fst native) = 3 # 2 /\
  fst native <> setIsPlaying true exampleRunning /\
  existsb isError (snd native) = false /\
  sinkLevels (snd native) = [3 # 2] /\
  volume (fst web) = 3 # 2 /\
  fst web <> webRunning /\
  existsb isError (snd web) = false /\
  sinkLevels (snd web) = [3 # 2].
Proof.
  repeat split; try reflexivity; intros H; apply (f_equal volume) in H;
    vm_compute in H; discriminate.
Qed.

(** ** Starting *)

Lemma findInterval_newest {sink : Type} (h : nat) (v : Closure sink * Locals)
      (t : list (nat * (Closure sink * Locals))) :
  findInterval h t = None -> findInterval h (t ++ [(h, v)]) = Some v.
Proof.
  induction t as [|[k w] t IH]; intros H.
  - cbn. rewrite Nat.eqb_refl. reflexivity.
  - cbn [app findInterval] in *. destruct (Nat.eqb k h); [discriminate |].
    apply IH, H.
Qed.

Lemma countStopped_app (es fs : list Event) :
  countStopped (es ++ fs) = (countStopped es + countStopped fs)%nat.
Proof. unfold countStopped. rewrite filter_app, length_app. reflexivity. Qed.

(** Without a selected pattern or profile [startSession] only alerts. *)
Lemma startSession_requires_selection (x : StartOutcome Sound) (a : App Sound) :
  selectedMRIPattern a = None \/ selectedSoundProfile a = None ->
  Native.startSession x a
  = (a, [ Alert "Selection Required"
                "Please select both MRI pattern and sound profile" ]).
Proof.
  unfold Native.startSession. intros [H | H]; rewrite H;
    [|destruct (selectedMRIPattern a)]; reflexivity.
Qed.

(** When the backend cannot create the session nothing is scheduled. *)
Lemma startSession_without_session (x : StartOutcome Sound) (a : App Sound) :
  sessionResponse x = None ->
  intervals (fst (Native.startSession x a)) = intervals a /\
  isPlaying (fst (Native.startSession x a)) = isPlaying a.
Proof.
  unfold Native.startSession. intros H. rewrite H.
  destruct (selectedMRIPattern a), (selectedSoundProfile a); split; reflexivity.
Qed.

Lemma startSession_shape (x : StartOutcome Sound) (a : App Sound)
      (p : MRIPattern) (sp : SoundProfile) (s : UserSession) :
  selectedMRIPattern a = Some p ->
  selectedSoundProfile a = Some sp ->
  sessionResponse x = Some s ->
  let c := mkClosure (duration_minutes p * 60) (sequence_pattern p) (volume a)
                     (audioSink a) (currentSession a) in
  let r := Native.startSession x a in
  intervals (fst r) = intervals a ++ [(nextTimerId a, (c, startLocals))] /\
  progressTimer (fst r) = Some (nextTimerId a) /\
  isPlaying (fst r) = true /\
  existsb isAlert (snd r) = false /\
  countStopped (snd r) = 0%nat.
Proof.
  intros Hp Hs Hx c r. subst c r.
  unfold Native.startSession. rewrite Hp, Hs, Hx.
  unfold Native.loadAudioFile, Native.startMRISimulation. rewrite Hp.
  destruct (audioSink a) as [old|]; destruct (unloadResolves x);
    destruct (loadedSink x) as [new|]; cbn; repeat split; reflexivity.
Qed.

(** C7, as the code has it. [startSession] checks only that a pattern and
    a profile are selected.  For every selected pattern, whatever its
    duration and phases, once the backend has created the session it raises
    no alert, schedules the tick interval and sets [isPlaying].  A pattern
    whose total duration is not positive is stopped by its first tick; with
    an empty phase list every tick shows progress and remaining time and
    nothing else.  Without a selected pattern or profile it alerts and
    changes nothing. *)
Theorem startSession_starts_any_pattern
        (x : StartOutcome Sound) (a : App Sound)
        (p : MRIPattern) (sp : SoundProfile) (s : UserSession) :
  selectedMRIPattern a = Some p ->
  selectedSoundProfile a = Some sp ->
  sessionResponse x = Some s ->
  let c := mkClosure (duration_minutes p * 60) (sequence_pattern p) (volume a)
                     (audioSink a) (currentSession a) in
  let r := Native.startSession x a in
  isPlaying (fst r) = true /\
  intervals (fst r) = intervals a ++ [(nextTimerId a, (c, startLocals))] /\
  progressTimer (fst r) = Some (nextTimerId a) /\
  existsb isAlert (snd r) = false /\
  (duration_minutes p * 60 <= 0 ->
   autoStop (Native.intervalCallback c startLocals) = true) /\
  (sequence_pattern p = [] ->
   forall l,
     emitted (Native.intervalCallback c l)
     = [ SetScanProgress (clampedProgress (currentTime l + 1) (totalDuration c));
         SetTimeRemaining
           (clampedRemaining (currentTime l + 1) (totalDuration c)) ]) /\
  (forall a0 : App Sound,
      selectedMRIPattern a0 = None \/ selectedSoundProfile a0 = None ->
      Native.startSession x a0
      = (a0, [ Alert "Selection Required"
                     "Please select both MRI pattern and sound profile" ])).
Proof.
  intros Hp Hs Hx c r.
  destruct (startSession_shape x a p sp s Hp Hs Hx) as (I & P & Pl & Al & _).
  repeat split; try assumption; try (apply startSession_requires_selection).
  - intros Hd. rewrite native_tick_stop. unfold isComplete.
    apply Qle_bool_iff. cbn [totalDuration c currentTime startLocals].
    change (inject_Z (0 + 1)) with 1. lra.
  - intros He l. unfold Native.intervalCallback. subst c.
    cbn [sequences]. rewrite He. reflexivity.
Qed.

Lemma startSession_starts_any_pattern_witness :
  let a : App Sound := ready noPhasePattern (1 # 2) in
  let c : Closure Sound := mkClosure (1 * 60) [] (1 # 2) None None in
  let r := Native.startSession okStart a in
  isPlaying (fst r) = true /\
  intervals (fst r) = [] ++ [(1%nat, (c, startLocals))] /\
  progressTimer (fst r) = Some 1%nat /\
  existsb isAlert (snd r) = false /\
  (1 * 60 <= 0 -> autoStop (Native.intervalCallback c startLocals) = true) /\
  (@nil Sequence = [] ->
   forall l,
     emitted (Native.intervalCallback c l)
     = [ SetScanProgress (clampedProgress (currentTime l + 1) (totalDuration c));
         SetTimeRemaining
           (clampedRemaining (currentTime l + 1) (totalDuration c)) ]) /\
  (forall a0 : App Sound,
      selectedMRIPattern a0 = None \/ selectedSoundProfile a0 = None ->
      Native.startSession okStart a0
      = (a0, [ Alert "Selection Required"
                     "Please select both MRI pattern and sound profile" ])).
Proof.
  apply (startSession_starts_any_pattern
           okStart (ready noPhasePattern (1 # 2)) noPhasePattern
           exampleProfile (mkUserSession "s1")); reflexivity.
Defined.

(** C7, as stated, fails: with an empty phase list, and likewise with a
    negative duration, [startSession] reports no error, schedules the
    interval and leaves the session playing. *)
Lemma invalid_pattern_is_started :
  let empty := Native.startSession okStart (ready noPhasePattern (1 # 2)) in
  let negative := Native.startSession okStart (ready negativePattern (1 # 2)) in
  isPlaying (fst empty) = true /\
  intervals (fst empty) <> [] /\
  existsb isError (snd empty) = false /\
  isPlaying (fst negative) = true /\
  intervals (fst negative) <> [] /\
  existsb isError (snd negative) = false /\
  ~ (isPlaying (fst empty) = false /\ intervals (fst empty) = []
     /\ existsb isError (snd empty) = true).
Proof.
  repeat split; try reflexivity; try (vm_compute; discriminate).
  intros (H & _). vm_compute in H. discriminate.
Qed.

(** ** Firing an interval *)

Lemma native_tick_quiet (c : Closure Sound) (l : Locals) (a : App Sound) :
  isPlaying (applySetters (emitted (Native.intervalCallback c l)) a)
  = isPlaying a /\
  countStopped (emitted (Native.intervalCallback c l)) = 0%nat.
Proof. unfold Native.intervalCallback. tick_cases; split; reflexivity. Qed.

Lemma native_fire_running (x : StopOutcome) (h : nat) (a : App Sound)
      (c : Closure Sound) (l : Locals) :
  findInterval h (intervals a) = Some (c, l) ->
  isComplete (currentTime l + 1) (totalDuration c) = false ->
  let t := Native.intervalCallback c l in
  Native.fire x h a
  = (applySetters (emitted t)
                  (withIntervals (storeLocals h (locals t) (intervals a)) a),
     emitted t).
Proof.
  intros Hf Hc t. unfold Native.fire. rewrite Hf. fold t.
  rewrite (native_tick_stop c l : autoStop t = _), Hc. reflexivity.
Qed.

Lemma native_fire_unscheduled (x : StopOutcome) (h : nat) (a : App Sound) :
  findInterval h (intervals a) = None -> Native.fire x h a = (a, []).
Proof. intros H. unfold Native.fire. rewrite H. reflexivity. Qed.

Lemma native_fire_advances (x : StopOutcome) (h : nat) (a : App Sound)
      (c : Closure Sound) (l : Locals) :
  findInterval h (intervals a) = Some (c, l) ->
  isComplete (currentTime l + 1) (totalDuration c) = false ->
  let r := Native.fire x h a in
  findInterval h (intervals (fst r)) = Some (c, nextLocals (sequences c) l) /\
  progressTimer (fst r) = progressTimer a /\
  isPlaying (fst r) = isPlaying a /\
  countStopped (snd r) = 0%nat.
Proof.
  intros Hf Hc r. subst r. rewrite (native_fire_running x h a c l Hf Hc).
  cbn [fst snd].
  destruct (applySetters_runtime
              (emitted (Native.intervalCallback c l))
              (withIntervals
                 (storeLocals h (locals (Native.intervalCallback c l))
                              (intervals a)) a)) as (I & P & _ & _).
  destruct (native_tick_quiet c l
              (withIntervals
                 (storeLocals h (locals (Native.intervalCallback c l))
                              (intervals a)) a)) as (Q1 & Q2).
  rewrite I, P, Q1. cbn [intervals withIntervals progressTimer isPlaying].
  rewrite native_tick_locals.
  repeat split; try assumption.
  apply (findInterval_store h c l). exact Hf.
Qed.

(** ** Starting while a session runs (C3) *)

(** C3, as the code has it. [startSession] performs no implicit stop: it
    calls [setIsPlaying(false)] nowhere and clears no interval.  A second
    start while an interval is scheduled adds a new interval with its own
    elapsed time at 0 and moves [progressTimer.current] to it; the previous
    interval stays scheduled with its counters, and its next firing
    advances them as before. *)
Theorem restart_keeps_prior_schedule
        (x : StartOutcome Sound) (y : StopOutcome) (a : App Sound)
        (p : MRIPattern) (sp : SoundProfile) (s : UserSession)
        (h : nat) (c : Closure Sound) (l : Locals) :
  selectedMRIPattern a = Some p ->
  selectedSoundProfile a = Some sp ->
  sessionResponse x = Some s ->
  findInterval h (intervals a) = Some (c, l) ->
  findInterval (nextTimerId a) (intervals a) = None ->
  isComplete (currentTime l + 1) (totalDuration c) = false ->
  let r := Native.startSession x a in
  let new := mkClosure (duration_minutes p * 60) (sequence_pattern p)
                       (volume a) (audioSink a) (currentSession a) in
  countStopped (snd r) = 0%nat /\
  findInterval (nextTimerId a) (intervals (fst r)) = Some (new, startLocals) /\
  progressTimer (fst r) = Some (nextTimerId a) /\
  findInterval h (intervals (fst r)) = Some (c, l) /\
  findInterval h (intervals (fst (Native.fire y h (fst r))))
  = Some (c, nextLocals (sequences c) l) /\
  currentTime (nextLocals (sequences c) l) = (currentTime l + 1)%Z.
Proof.
  intros Hp Hs Hx Hh Hfresh Hc r new.
  destruct (startSession_shape x a p sp s Hp Hs Hx) as (I & P & _ & _ & Cs).
  assert (Hne : h <> nextTimerId a).
  { intros E. subst h. rewrite Hfresh in Hh. discriminate. }
  assert (Hold : findInterval h (intervals (fst r)) = Some (c, l)).
  { subst r. rewrite I, findInterval_older by exact Hne. exact Hh. }
  repeat split.
  - exact Cs.
  - subst r. rewrite I. apply findInterval_newest. exact Hfresh.
  - exact P.
  - exact Hold.
  - destruct (native_fire_advances y h (fst r) c l Hold Hc) as (F & _).
    exact F.
  - apply nextLocals_time.
Qed.

Lemma restart_keeps_prior_schedule_witness :
  let a := fst (Native.seconds allResolve 3
                  (fst (Native.startSession
                          okStart (ready tenSecondPattern (1 # 2))))) in
  let old : Closure Sound :=
    mkClosure ((1 # 6) * 60) [mkSequence 1500 10 120] (1 # 2) None None in
  let new : Closure Sound :=
    mkClosure ((1 # 6) * 60) [mkSequence 1500 10 120] (1 # 2) (Some 7%nat)
              (Some (mkUserSession "s1")) in
  let r := Native.startSession okStart a in
  countStopped (snd r) = 0%nat /\
  findInterval 2 (intervals (fst r)) = Some (new, startLocals) /\
  progressTimer (fst r) = Some 2%nat /\
  findInterval 1 (intervals (fst r)) = Some (old, mkLocals 3 0 0) /\
  findInterval 1 (intervals (fst (Native.fire allResolve 1 (fst r))))
  = Some (old, nextLocals (sequences old) (mkLocals 3 0 0)) /\
  currentTime (nextLocals (sequences old) (mkLocals 3 0 0)) = (3 + 1)%Z.
Proof.
  apply (restart_keeps_prior_schedule
           okStart allResolve
           (fst (Native.seconds allResolve 3
                   (fst (Native.startSession
                           okStart (ready tenSecondPattern (1 # 2))))))
           tenSecondPattern exampleProfile (mkUserSession "s1") 1
           (mkClosure ((1 # 6) * 60) [mkSequence 1500 10 120] (1 # 2) None None)
           (mkLocals 3 0 0)); reflexivity.
Defined.

(** C3, as stated, fails. Ten-second pattern, three seconds, start again:
    the first interval is still scheduled and goes from 3 to 4 elapsed
    seconds in the next second; the new run starts at 0 but gets 6 ticks,
    not 10, because the first interval completes in the seventh second and
    its [stopSession] clears the timer the ref now points to; the first
    interval itself is never cleared and has ticked 13 more times after 13
    seconds. *)
Lemma restart_double_schedule :
  let old : Closure Sound :=
    mkClosure ((1 # 6) * 60) [mkSequence 1500 10 120] (1 # 2) None None in
  let after n := fst (Native.seconds allResolve n restarted) in
  option_map snd (findInterval 1 (intervals restarted))
  = Some (mkLocals 3 0 0) /\
  option_map snd (findInterval 2 (intervals restarted)) = Some startLocals /\
  progressTimer restarted = Some 2%nat /\
  option_map snd (findInterval 1 (intervals (after 1%nat)))
  = Some (mkLocals 4 0 0) /\
  option_map snd (findInterval 2 (intervals (after 6%nat)))
  = Some (mkLocals 6 0 0) /\
  findInterval 2 (intervals (after 7%nat)) = None /\
  isPlaying (after 7%nat) = false /\
  option_map snd (findInterval 1 (intervals (after 13%nat)))
  = Some (mkLocals 16 0 0) /\
  ~ (findInterval 1 (intervals restarted) = None).
Proof.
  repeat split; try reflexivity. vm_compute. discriminate.
Qed.

(** ** Natural completion (C1) *)

Lemma isComplete_integer (T : Q) (N e : Z) :
  T == inject_Z N -> (isComplete e T = true <-> (N <= e)%Z).
Proof.
  intros HT. unfold isComplete. rewrite Qle_bool_iff, HT, <- Zle_Qle.
  reflexivity.
Qed.

Lemma isComplete_before (T : Q) (N e : Z) :
  T == inject_Z N -> (e < N)%Z -> isComplete e T = false.
Proof.
  intros HT H. destruct (isComplete e T) eqn:E; [|reflexivity].
  apply (isComplete_integer T N e HT) in E. lia.
Qed.

Lemma native_run_prefix (x : StopOutcome) (h : nat) (c : Closure Sound)
      (a : App Sound) (N k : nat) :
  findInterval h (intervals a) = Some (c, startLocals) ->
  progressTimer a = Some h ->
  totalDuration c == inject_Z (Z.of_nat N) ->
  (k < N)%nat ->
  let r := Native.fireMany x h k a in
  findInterval h (intervals (fst r))
  = Some (c, ticks (Native.intervalCallback c) k startLocals) /\
  progressTimer (fst r) = Some h /\
  isPlaying (fst r) = isPlaying a /\
  countStopped (snd r) = 0%nat.
Proof.
  intros Hf Hp HT. induction k as [|k IH]; intros Hk.
  - cbn. repeat split; assumption.
  - cbn [Native.fireMany]. cbv zeta in IH.
    destruct (Native.fireMany x h k a) as [a1 es1] eqn:E1.
    cbn [fst snd] in IH.
    destruct IH as (F1 & P1 & Pl1 & C1); [lia |].
    assert (Hc : isComplete
                   (currentTime (ticks (Native.intervalCallback c) k
                                       startLocals) + 1)
                   (totalDuration c) = false).
    { apply (isComplete_before _ (Z.of_nat N)); [exact HT |].
      rewrite (ticks_time _ (sequences c) (native_tick_locals c)). lia. }
    destruct (native_fire_advances x h a1 c _ F1 Hc) as (F2 & P2 & Pl2 & C2).
    destruct (Native.fire x h a1) as [a2 es2] eqn:E2.
    cbn [fst snd] in *. rewrite countStopped_app, C1, C2.
    cbn [ticks]. rewrite native_tick_locals.
    repeat split; congruence.
Qed.

Lemma native_fire_final (x : StopOutcome) (h : nat) (a : App Sound)
      (c : Closure Sound) (l : Locals) :
  findInterval h (intervals a) = Some (c, l) ->
  progressTimer a = Some h ->
  isComplete (currentTime l + 1) (totalDuration c) = true ->
  stopResolves x = true ->
  completeResolves x = true ->
  let r := Native.fire x h a in
  snd r
  = emitted (Native.intervalCallback c l)
    ++ (match c_sink c with Some s => [StopAsync s] | None => [] end
        ++ match c_currentSession c with
           | Some s => [PutSessionComplete (session_id s)]
           | None => []
           end
        ++ stopResets) /\
  isPlaying (fst r) = false /\
  findInterval h (intervals (fst r)) = None /\
  countStopped (snd r) = 1%nat.
Proof.
  intros Hf Hp Hc H1 H2 r. subst r. unfold Native.fire. rewrite Hf.
  rewrite native_tick_stop, Hc, (native_stop_resolved _ _ x _ H1 H2).
  cbn [fst snd].
  set (t := Native.intervalCallback c l).
  set (a1 := withIntervals (storeLocals h (locals t) (intervals a)) a).
  destruct (applySetters_runtime (emitted t) a1) as (I & P & _ & _).
  split; [reflexivity |]. split; [reflexivity |]. split.
  - destruct (applySetters_runtime
                stopResets (clearProgressTimer (applySetters (emitted t) a1)))
      as (I2 & _). rewrite I2. unfold clearProgressTimer. rewrite P.
    subst a1. cbn [progressTimer withIntervals]. rewrite Hp.
    cbn [intervals withIntervals]. apply findInterval_remove.
  - rewrite countStopped_app.
    destruct (native_tick_quiet c l a) as (_ & Q). fold t in Q. rewrite Q.
    destruct (c_sink c), (c_currentSession c); reflexivity.
Qed.

Lemma native_fireMany_step (x : StopOutcome) (h n : nat) (a : App Sound) :
  Native.fireMany x h (S n) a
  = (fst (Native.fire x h (fst (Native.fireMany x h n a))),
     snd (Native.fireMany x h n a)
     ++ snd (Native.fire x h (fst (Native.fireMany x h n a)))).
Proof.
  cbn [Native.fireMany]. destruct (Native.fireMany x h n a) as [a1 es1].
  cbn [fst snd]. destruct (Native.fire x h a1); reflexivity.
Qed.

Lemma native_stop_notifications (sound : option Sound)
      (cs : option UserSession) (x : StopOutcome) (a : App Sound) :
  stopResolves x = true ->
  completeResolves x = true ->
  notifications (snd (Native.stopSession sound cs x a)) = stopResets.
Proof.
  intros H1 H2. rewrite (native_stop_resolved _ _ x a H1 H2).
  destruct sound, cs; reflexivity.
Qed.

(** C1, as the code has it. For a total of [N > 0] whole seconds the
    interval scheduled by a start keeps the session playing through its
    first [N - 1] ticks; its [N]-th tick calls [stopSession()], which
    clears the interval and resets the state, so that [setIsPlaying(false)]
    is called exactly once and no later firing does anything.  There is no
    separate completion notification: after the displays of the tick, the
    [N]-th firing emits exactly the events of [stopSession] (the stop of
    the captured sound, the completion request for the captured session,
    the five resets), and the notifications among these are the five
    resets, which are also the notifications of every press of Stop. *)
Theorem natural_completion
        (x : StopOutcome) (a : App Sound) (h : nat) (c : Closure Sound)
        (N : nat) :
  findInterval h (intervals a) = Some (c, startLocals) ->
  progressTimer a = Some h ->
  isPlaying a = true ->
  totalDuration c == inject_Z (Z.of_nat N) ->
  (0 < N)%nat ->
  stopResolves x = true ->
  completeResolves x = true ->
  let before := Native.fireMany x h (N - 1) a in
  let final := Native.fire x h (fst before) in
  let stopEvents :=
    match c_sink c with Some s => [StopAsync s] | None => [] end
    ++ match c_currentSession c with
       | Some s => [PutSessionComplete (session_id s)]
       | None => []
       end
    ++ stopResets in
  isPlaying (fst before) = true /\
  countStopped (snd before) = 0%nat /\
  snd final = emitted (nthTick (Native.intervalCallback c) N) ++ stopEvents /\
  isPlaying (fst final) = false /\
  findInterval h (intervals (fst final)) = None /\
  countStopped (snd (Native.fireMany x h N a)) = 1%nat /\
  (forall k : nat,
      Native.fireMany x h (N + k) a = Native.fireMany x h N a) /\
  notifications stopEvents = stopResets /\
  (forall a' : App Sound,
      notifications (snd (Native.pressStop x a')) = stopResets).
Proof.
  intros Hf Hp Hpl HT HN H1 H2.
  destruct N as [|M]; [lia |].
  replace (S M - 1)%nat with M by lia.
  intros before final stopEvents.
  destruct (native_run_prefix x h c a (S M) M Hf Hp HT) as (F & P & Pl & C);
    [lia |].
  fold before in F, P, Pl, C.
  assert (Hc : isComplete
                 (currentTime (ticks (Native.intervalCallback c) M
                                     startLocals) + 1)
                 (totalDuration c) = true).
  { apply (isComplete_integer _ (Z.of_nat (S M))); [exact HT |].
    rewrite (ticks_time _ (sequences c) (native_tick_locals c)). lia. }
  destruct (native_fire_final x h (fst before) c _ F P Hc H1 H2)
    as (E & Pl' & F' & C').
  fold final in E, Pl', F', C'.
  assert (EN : Native.fireMany x h (S M) a
               = (fst final, snd before ++ snd final)).
  { apply native_fireMany_step. }
  split; [congruence |]. split; [exact C |].
  split.
  { unfold nthTick. replace (S M - 1)%nat with M by lia. exact E. }
  split; [exact Pl' |]. split; [exact F' |].
  split.
  { rewrite EN. cbn [snd]. rewrite countStopped_app, C, C'. reflexivity. }
  split.
  { intros k. induction k as [|k IH].
    - rewrite Nat.add_0_r. reflexivity.
    - rewrite Nat.add_succ_r, native_fireMany_step, IH, EN. cbn [fst snd].
      rewrite (native_fire_unscheduled x h (fst final) F').
      cbn [fst snd]. rewrite app_nil_r. reflexivity. }
  split.
  { subst stopEvents. destruct (c_sink c), (c_currentSession c); reflexivity. }
  intros a'. unfold Native.pressStop.
  apply native_stop_notifications; assumption.
Qed.

Lemma natural_completion_witness :
  let c : Closure Sound := mkClosure ((1 # 10) * 60) examplePhases (1 # 2)
                                     None None in
  let before := Native.fireMany allResolve 1 (6 - 1) exampleRunning in
  let final := Native.fire allResolve 1 (fst before) in
  let stopEvents := [] ++ [] ++ stopResets in
  isPlaying (fst before) = true /\
  countStopped (snd before) = 0%nat /\
  snd final = emitted (nthTick (Native.intervalCallback c) 6) ++ stopEvents /\
  isPlaying (fst final) = false /\
  findInterval 1 (intervals (fst final)) = None /\
  countStopped (snd (Native.fireMany allResolve 1 6 exampleRunning)) = 1%nat /\
  (forall k : nat,
      Native.fireMany allResolve 1 (6 + k) exampleRunning
      = Native.fireMany allResolve 1 6 exampleRunning) /\
  notifications stopEvents = stopResets /\
  (forall a' : App Sound,
      notifications (snd (Native.pressStop allResolve a')) = stopResets).
Proof.
  apply (natural_completion
           allResolve exampleRunning 1
           (mkClosure ((1 # 10) * 60) examplePhases (1 # 2) None None) 6);
    try reflexivity; lia.
Defined.

(** C1, as stated, fails on the example run: the sixth tick completes the
    run and emits, after its displays, exactly the five resets, which are
    also the notifications of a press of Stop at that moment; no event of
    the completing firing is anything but a display of the tick or an
    event of that stop. *)
Lemma completion_is_a_plain_stop :
  let c : Closure Sound := mkClosure ((1 # 10) * 60) examplePhases (1 # 2)
                                     None None in
  let a5 := fst (Native.fireMany allResolve 1 5 exampleRunning) in
  let completion := snd (Native.fire allResolve 1 a5) in
  let pressed := snd (Native.pressStop allResolve a5) in
  completion = emitted (nthTick (Native.intervalCallback c) 6) ++ stopResets /\
  notifications pressed = stopResets /\
  ~ (exists e, In e completion
               /\ ~ In e (emitted (nthTick (Native.intervalCallback c) 6))
               /\ ~ In e pressed).
Proof.
  split; [reflexivity |]. split; [reflexivity |].
  intros (e & Hin & Hnt & Hnp). vm_compute in Hin, Hnt, Hnp.
  intuition.
Qed.

(** * Further properties of the component *)

(** ** Levels handed to the sink *)

Lemma adjusted_level_within (vol int : Q) :
  0 <= vol -> vol <= 1 -> 0 <= int -> int <= 120 ->
  0 <= Qmin (vol * (int / 120)) 1 /\ Qmin (vol * (int / 120)) 1 <= vol.
Proof.
  intros V0 V1 I0 I1.
  assert (F0 : 0 <= int / 120) by (apply Qle_shift_div_l; lra).
  assert (F1 : int / 120 <= 1) by (apply Qle_shift_div_r; lra).
  assert (P0 : 0 <= vol * (int / 120)) by (apply Qmult_le_0_compat; assumption).
  assert (P1 : vol * (int / 120) <= vol).
  { rewrite <- (Qmult_1_r vol) at 2.
    rewrite (Qmult_comm vol (int / 120)), (Qmult_comm vol 1).
    apply Qmult_le_compat_r; assumption. }
  destruct (Q.min_spec (vol * (int / 120)) 1) as [[L E] | [L E]];
    rewrite E; split; lra.
Qed.

Lemma native_tick_levels (c : Closure Sound) (l : Locals) (v : Q) :
  In v (sinkLevels (emitted (Native.intervalCallback c l))) ->
  exists cur, In cur (sequences c)
              /\ v = Qmin (c_volume c * (intensity cur / 120)) 1.
Proof.
  unfold Native.intervalCallback.
  destruct (sequences c) as [|s0 ss] eqn:Hs; [intros [] |].
  destruct (nth_error (s0 :: ss) (sequenceIndex l)) as [cur|] eqn:Hn;
    [|intros []].
  apply nth_error_In in Hn.
  match goal with |- context [if ?b then _ else _] => destruct b end;
    destruct (c_sink c); cbn; intros H; try contradiction;
    destruct H as [H | []]; exists cur; split; auto.
Qed.

Lemma web_tick_levels (c : Closure AudioElement) (l : Locals) (v : Q) :
  In v (sinkLevels (emitted (Web.intervalCallback c l))) ->
  exists cur, In cur (sequences c)
              /\ v = Qmin (c_volume c * (intensity cur / 120)) 1.
Proof.
  unfold Web.intervalCallback.
  destruct (sequences c) as [|s0 ss] eqn:Hs; [intros [] |].
  destruct (nth_error (s0 :: ss) (sequenceIndex l)) as [cur|] eqn:Hn;
    [|intros []].
  apply nth_error_In in Hn.
  match goal with |- context [if ?b then _ else _] => destruct b end;
    destruct (c_sink c) as [el|]; try destruct (gainNode el); cbn;
    intros H; try contradiction;
    destruct H as [H | []]; exists cur; split; auto.
Qed.

(** X1. With a base volume in [0,1] and phase intensities in [0,120], every
    level a tick hands to the audio sink lies between 0 and the base
    volume, whatever the state of the run; both variants. *)
Theorem tick_levels_within_base_volume
        (c : Closure Sound) (w : Closure AudioElement) (l : Locals) :
  WithinReference c ->
  WithinReference w ->
  Forall (fun v => 0 <= v /\ v <= c_volume c)
         (sinkLevels (emitted (Native.intervalCallback c l))) /\
  Forall (fun v => 0 <= v /\ v <= c_volume w)
         (sinkLevels (emitted (Web.intervalCallback w l))).
Proof.
  intros (C0 & C1 & CI) (W0 & W1 & WI). split; apply Forall_forall; intros v Hv.
  - destruct (native_tick_levels c l v Hv) as (cur & Hin & ->).
    destruct (CI cur Hin). apply adjusted_level_within; assumption.
  - destruct (web_tick_levels w l v Hv) as (cur & Hin & ->).
    destruct (WI cur Hin). apply adjusted_level_within; assumption.
Qed.

Lemma example_within_reference {sink : Type} (s : option sink) :
  WithinReference (exampleClosure s).
Proof.
  unfold WithinReference, exampleClosure. cbn [c_volume sequences].
  split; [lra |]. split; [lra |].
  intros p [E | [E | []]]; subst p; cbn; split; lra.
Qed.

Lemma tick_levels_within_base_volume_witness :
  Forall (fun v => 0 <= v /\ v <= 1 # 2)
         (sinkLevels (emitted (Native.intervalCallback
                                 (exampleClosure (Some 0%nat))
                                 (mkLocals 4 1 4)))) /\
  Forall (fun v => 0 <= v /\ v <= 1 # 2)
         (sinkLevels (emitted (Web.intervalCallback
                                 (exampleClosure (Some (mkAudio true)))
                                 (mkLocals 4 1 4)))).
Proof.
  apply (tick_levels_within_base_volume
           (exampleClosure (Some 0%nat))
           (exampleClosure (Some (mkAudio true))) (mkLocals 4 1 4));
    apply example_within_reference.
Defined.

(** ** How long a phase lasts *)

Lemma nextLocals_holds (seqs : list Sequence) (cur : Sequence)
      (ct : Z) (idx : nat) (D j : Z) :
  nth_error seqs idx = Some cur ->
  duration cur == inject_Z D ->
  (0 <= j)%Z -> (j + 1 < D)%Z ->
  nextLocals seqs (mkLocals (ct + j) idx ct) = mkLocals (ct + (j + 1)) idx ct.
Proof.
  intros Hn Hd Hj Hlt. unfold nextLocals. cbn [currentTime sequenceIndex
    sequenceStartTime]. rewrite Hn.
  assert (F : Qle_bool (duration cur) (inject_Z (ct + j + 1 - ct)) = false).
  { destruct (Qle_bool (duration cur) (inject_Z (ct + j + 1 - ct))) eqn:E;
      [|reflexivity].
    apply Qle_bool_iff in E. rewrite Hd, <- Zle_Qle in E. lia. }
  rewrite F. cbn. f_equal. lia.
Qed.

Lemma nextLocals_leaves (seqs : list Sequence) (cur : Sequence)
      (ct : Z) (idx : nat) (D : Z) :
  nth_error seqs idx = Some cur ->
  (idx < List.length seqs - 1)%nat ->
  duration cur == inject_Z D ->
  nextLocals seqs (mkLocals (ct + (D - 1)) idx ct)
  = mkLocals (ct + D) (S idx) (ct + D).
Proof.
  intros Hn Hi Hd. unfold nextLocals. cbn [currentTime sequenceIndex
    sequenceStartTime]. rewrite Hn.
  assert (T : Qle_bool (duration cur) (inject_Z (ct + (D - 1) + 1 - ct))
              = true).
  { apply Qle_bool_iff. rewrite Hd, <- Zle_Qle. lia. }
  assert (B : (Z.of_nat idx <? Z.of_nat (List.length seqs) - 1)%Z = true)
    by (apply Z.ltb_lt; lia).
  rewrite T, B. cbn. f_equal; lia.
Qed.

Section PhaseLength.
Variable cb : Locals -> Tick.
Variable seqs : list Sequence.
Hypothesis cb_locals : forall l, locals (cb l) = nextLocals seqs l.

Lemma ticks_hold (cur : Sequence) (ct : Z) (idx D j : nat) :
  nth_error seqs idx = Some cur ->
  duration cur == inject_Z (Z.of_nat D) ->
  (j < D)%nat ->
  ticks cb j (mkLocals ct idx ct) = mkLocals (ct + Z.of_nat j) idx ct.
Proof.
  intros Hn Hd. induction j as [|j IH]; intros Hj.
  - cbn. f_equal. lia.
  - cbn [ticks]. rewrite cb_locals, IH by lia.
    rewrite (nextLocals_holds seqs cur ct idx (Z.of_nat D) (Z.of_nat j));
      try assumption; try lia.
    f_equal. lia.
Qed.

Lemma ticks_leave (cur : Sequence) (ct : Z) (idx D : nat) :
  nth_error seqs idx = Some cur ->
  (idx < List.length seqs - 1)%nat ->
  duration cur == inject_Z (Z.of_nat D) ->
  (1 <= D)%nat ->
  ticks cb D (mkLocals ct idx ct)
  = mkLocals (ct + Z.of_nat D) (S idx) (ct + Z.of_nat D).
Proof.
  intros Hn Hi Hd HD. destruct D as [|D]; [lia |].
  cbn [ticks]. rewrite cb_locals, (ticks_hold cur ct idx (S D) D) by
      (assumption || lia).
  replace (ct + Z.of_nat D)%Z with (ct + (Z.of_nat (S D) - 1))%Z by lia.
  apply (nextLocals_leaves seqs cur); assumption.
Qed.

Lemma ticks_stay_on_last (l : Locals) (n : nat) :
  (List.length seqs - 1 <= sequenceIndex l)%nat ->
  sequenceIndex (ticks cb n l) = sequenceIndex l.
Proof.
  intros Hl. induction n as [|n IH]; [reflexivity |].
  cbn [ticks]. rewrite cb_locals.
  destruct (nextLocals_index_step seqs (ticks cb n l)) as [E | [_ B]].
  - rewrite E. exact IH.
  - rewrite IH in B. lia.
Qed.
End PhaseLength.

(** X2. A phase that is not the last one and lasts a whole number [D >= 1]
    of seconds keeps the phase index for exactly [D] ticks from the tick on
    which it was entered: the index is unchanged after fewer than [D]
    ticks, and the [D]-th tick moves to the next phase and restarts the
    phase clock at the current time.  Both variants. *)
Theorem whole_second_phase_lasts_its_duration
        (c : Closure Sound) (w : Closure AudioElement)
        (cur : Sequence) (ct : Z) (idx D : nat) :
  sequences w = sequences c ->
  nth_error (sequences c) idx = Some cur ->
  (idx < List.length (sequences c) - 1)%nat ->
  duration cur == inject_Z (Z.of_nat D) ->
  (1 <= D)%nat ->
  let entered := mkLocals ct idx ct in
  (forall j : nat, (j < D)%nat ->
     sequenceIndex (ticks (Native.intervalCallback c) j entered) = idx /\
     sequenceIndex (ticks (Web.intervalCallback w) j entered) = idx) /\
  ticks (Native.intervalCallback c) D entered
  = mkLocals (ct + Z.of_nat D) (S idx) (ct + Z.of_nat D) /\
  ticks (Web.intervalCallback w) D entered
  = mkLocals (ct + Z.of_nat D) (S idx) (ct + Z.of_nat D).
Proof.
  intros Hw Hn Hi Hd HD entered. subst entered.
  pose proof (native_tick_locals c) as Nl.
  pose proof (web_tick_locals w) as Wl. rewrite Hw in Wl.
  repeat split.
  - rewrite (ticks_hold _ _ Nl cur ct idx D j); auto.
  - rewrite (ticks_hold _ _ Wl cur ct idx D j); auto.
  - apply (ticks_leave _ _ Nl cur); assumption.
  - apply (ticks_leave _ _ Wl cur); assumption.
Qed.

Lemma whole_second_phase_lasts_its_duration_witness :
  let c : Closure Sound := exampleClosure (Some 0%nat) in
  let w : Closure AudioElement := exampleClosure (Some (mkAudio true)) in
  let entered := mkLocals 0 0 0 in
  (forall j : nat, (j < 4)%nat ->
     sequenceIndex (ticks (Native.intervalCallback c) j entered) = 0%nat /\
     sequenceIndex (ticks (Web.intervalCallback w) j entered) = 0%nat) /\
  ticks (Native.intervalCallback c) 4 entered
  = mkLocals (0 + Z.of_nat 4) 1 (0 + Z.of_nat 4) /\
  ticks (Web.intervalCallback w) 4 entered
  = mkLocals (0 + Z.of_nat 4) 1 (0 + Z.of_nat 4).
Proof.
  apply (whole_second_phase_lasts_its_duration
           (exampleClosure (Some 0%nat))
           (exampleClosure (Some (mkAudio true)))
           (mkSequence 1500 4 120) 0 0 4); try reflexivity; simpl; lia.
Defined.

(** X3. Once a run is on its last phase it stays there: whatever the
    durations and however many ticks follow, the index does not change, and
    every such tick shows the label of the last phase.  Both variants. *)
Theorem last_phase_is_kept
        (c : Closure Sound) (w : Closure AudioElement) (l : Locals)
        (last : Sequence) (n : nat) :
  sequences w = sequences c ->
  nth_error (sequences c) (sequenceIndex l) = Some last ->
  sequenceIndex l = (List.length (sequences c) - 1)%nat ->
  let native := Native.intervalCallback c in
  let web := Web.intervalCallback w in
  sequenceIndex (ticks native n l) = sequenceIndex l /\
  sequenceIndex (ticks web n l) = sequenceIndex l /\
  firstLabel (emitted (native (ticks native n l)))
  = Some (PhaseName (Z.of_nat (List.length (sequences c))) (frequency last)) /\
  firstLabel (emitted (web (ticks web n l)))
  = Some (PhaseName (Z.of_nat (List.length (sequences c))) (frequency last)).
Proof.
  intros Hw Hn Hl native web. subst native web.
  pose proof (native_tick_locals c) as Nl.
  pose proof (web_tick_locals w) as Wl. rewrite Hw in Wl.
  assert (En : sequenceIndex (ticks (Native.intervalCallback c) n l)
               = sequenceIndex l)
    by (apply (ticks_stay_on_last _ _ Nl); lia).
  assert (Ew : sequenceIndex (ticks (Web.intervalCallback w) n l)
               = sequenceIndex l)
    by (apply (ticks_stay_on_last _ _ Wl); lia).
  assert (Len : (0 < List.length (sequences c))%nat).
  { destruct (sequences c); [destruct (sequenceIndex l); discriminate |].
    cbn. lia. }
  split; [exact En |]. split; [exact Ew |].
  split.
  - set (ln := ticks (Native.intervalCallback c) n l) in *.
    unfold Native.intervalCallback. rewrite En, Hn.
    destruct (sequences c) as [|s0 ss] eqn:Hs; [cbn in Len; lia |].
    assert (B : (Z.of_nat (sequenceIndex l)
                 <? Z.of_nat (List.length (s0 :: ss)) - 1)%Z = false)
      by (apply Z.ltb_ge; lia).
    rewrite B, andb_false_r. cbn [firstLabel emitted app flat_map hd_error].
    do 2 f_equal. lia.
  - set (lw := ticks (Web.intervalCallback w) n l) in *.
    unfold Web.intervalCallback. rewrite Ew, Hw, Hn.
    destruct (sequences c) as [|s0 ss] eqn:Hs; [cbn in Len; lia |].
    assert (B : (Z.of_nat (sequenceIndex l)
                 <? Z.of_nat (List.length (s0 :: ss)) - 1)%Z = false)
      by (apply Z.ltb_ge; lia).
    rewrite B, andb_false_r. cbn [firstLabel emitted app flat_map hd_error].
    do 2 f_equal. lia.
Qed.

Lemma last_phase_is_kept_witness :
  let c : Closure Sound := exampleClosure (Some 0%nat) in
  let w : Closure AudioElement := exampleClosure (Some (mkAudio true)) in
  let l := mkLocals 4 1 4 in
  let native := Native.intervalCallback c in
  let web := Web.intervalCallback w in
  sequenceIndex (ticks native 9 l) = sequenceIndex l /\
  sequenceIndex (ticks web 9 l) = sequenceIndex l /\
  firstLabel (emitted (native (ticks native 9 l)))
  = Some (PhaseName (Z.of_nat (List.length (sequences c))) 2000) /\
  firstLabel (emitted (web (ticks web 9 l)))
  = Some (PhaseName (Z.of_nat (List.length (sequences c))) 2000).
Proof.
  apply (last_phase_is_kept
           (exampleClosure (Some 0%nat))
           (exampleClosure (Some (mkAudio true)))
           (mkLocals 4 1 4) (mkSequence 2000 2 60) 9); reflexivity.
Defined.

(** ** The clock display *)

Lemma string_length_append (s t : string) :
  String.length (s ++ t)%string = (String.length s + String.length t)%nat.
Proof. induction s as [|c s IH]; cbn; [reflexivity | rewrite IH; reflexivity]. Qed.

Lemma string_append_split (s1 s2 t1 t2 : string) :
  (s1 ++ t1)%string = (s2 ++ t2)%string ->
  String.length t1 = String.length t2 ->
  s1 = s2 /\ t1 = t2.
Proof.
  revert s2. induction s1 as [|c s1 IH]; intros [|d s2] H L; cbn in H.
  - split; [reflexivity | exact H].
  - exfalso. apply (f_equal String.length) in H. cbn in H.
    rewrite string_length_append in H. lia.
  - exfalso. apply (f_equal String.length) in H. cbn in H.
    rewrite string_length_append in H. lia.
  - injection H as -> H. destruct (IH s2 H L) as [-> ->]. split; reflexivity.
Qed.

Lemma toString_injective (n m : nat) : toString n = toString m -> n = m.
Proof.
  unfold toString. intros H.
  apply (f_equal NilEmpty.uint_of_string) in H.
  rewrite !NilEmpty.usu in H. injection H as H.
  apply (f_equal Nat.of_uint) in H. rewrite !Unsigned.of_to in H. exact H.
Qed.

(** The seconds field read back as a number. *)
Lemma seconds_field_reads_back (n : nat) :
  (n < 60)%nat ->
  String.length (padStart 2 "0" (toString n)) = 2%nat /\
  option_map Nat.of_uint
             (NilEmpty.uint_of_string (padStart 2 "0" (toString n)))
  = Some n.
Proof.
  intros Hn.
  assert (A : forallb
                (fun k =>
                   Nat.eqb (String.length (padStart 2 "0" (toString k))) 2
                   && match option_map
                              Nat.of_uint
                              (NilEmpty.uint_of_string
                                 (padStart 2 "0" (toString k))) with
                      | Some r => Nat.eqb r k
                      | None => false
                      end)
                (seq 0 60) = true) by (vm_compute; reflexivity).
  rewrite forallb_forall in A.
  specialize (A n). rewrite in_seq in A.
  assert (B := A (conj (Nat.le_0_l n) Hn)). clear A.
  apply andb_true_iff in B. destruct B as [B1 B2].
  apply Nat.eqb_eq in B1. split; [exact B1 |].
  destruct (option_map Nat.of_uint
                       (NilEmpty.uint_of_string (padStart 2 "0" (toString n))))
    as [r|]; [|discriminate].
  apply Nat.eqb_eq in B2. subst r. reflexivity.
Qed.

(** X4. [formatTime] always shows the seconds on exactly two characters
    after the minutes and a colon: the text is three characters longer than
    the minutes written in decimal. *)
Theorem formatTime_seconds_on_two_characters (seconds : nat) :
  exists field : string,
    formatTime seconds = (toString (seconds / 60) ++ ":" ++ field)%string /\
    String.length field = 2%nat /\
    String.length (formatTime seconds)
    = (String.length (toString (seconds / 60)) + 3)%nat.
Proof.
  exists (padStart 2 "0" (toString (seconds mod 60))).
  assert (M : (seconds mod 60 < 60)%nat) by (apply Nat.mod_upper_bound; lia).
  destruct (seconds_field_reads_back _ M) as [L _].
  split; [reflexivity |]. split; [exact L |].
  unfold formatTime. rewrite !string_length_append, L. cbn. lia.
Qed.

(** X5. Different whole numbers of seconds are never shown as the same
    text. *)
Theorem formatTime_distinguishes (a b : nat) :
  a <> b -> formatTime a <> formatTime b.
Proof.
  intros Hab H. apply Hab. unfold formatTime in H.
  assert (Ma : (a mod 60 < 60)%nat) by (apply Nat.mod_upper_bound; lia).
  assert (Mb : (b mod 60 < 60)%nat) by (apply Nat.mod_upper_bound; lia).
  destruct (seconds_field_reads_back _ Ma) as [La Ra].
  destruct (seconds_field_reads_back _ Mb) as [Lb Rb].
  remember (a mod 60)%nat as ra eqn:Era.
  remember (b mod 60)%nat as rb eqn:Erb.
  remember (padStart 2 "0" (toString ra)) as fa eqn:Efa.
  remember (padStart 2 "0" (toString rb)) as fb eqn:Efb.
  apply string_append_split in H.
  2:{ cbn [String.append String.length]. rewrite La, Lb. reflexivity. }
  destruct H as [Hm Hs]. apply toString_injective in Hm.
  cbn [String.append] in Hs. injection Hs as Hs.
  rewrite Hs in Ra. rewrite Ra in Rb. injection Rb as Rb.
  rewrite (Nat.div_mod_eq a 60), (Nat.div_mod_eq b 60), <- Era, <- Erb, Hm, Rb.
  reflexivity.
Qed.

Lemma formatTime_distinguishes_witness : formatTime 59 <> formatTime 60.
Proof. apply (formatTime_distinguishes 59 60). lia. Defined.

(** ** Failures while starting and stopping *)

Lemma startSession_failed_fields (x : StartOutcome Sound) (a : App Sound) :
  sessionResponse x = None ->
  let r := Native.startSession x a in
  intervals (fst r) = intervals a /\
  progressTimer (fst r) = progressTimer a /\
  isPlaying (fst r) = isPlaying a /\
  currentSession (fst r) = currentSession a /\
  audioSink (fst r) = audioSink a.
Proof.
  intros H r. subst r. unfold Native.startSession. rewrite H.
  destruct (selectedMRIPattern a), (selectedSoundProfile a);
    repeat split; reflexivity.
Qed.

(** X6. Of the awaited calls of [startSession] only the session creation
    is fatal.  When it rejects, an alert is raised, no audio call is made,
    nothing is scheduled and session, audio and playing state stay as they
    were.  When it resolves, the session is stored, one interval is added
    and the state is playing without any alert, whether or not the audio
    could be unloaded or loaded.  Either way the loading flag ends up
    cleared. *)
Theorem only_session_creation_is_fatal
        (x : StartOutcome Sound) (a : App Sound)
        (p : MRIPattern) (sp : SoundProfile) :
  selectedMRIPattern a = Some p ->
  selectedSoundProfile a = Some sp ->
  let r := Native.startSession x a in
  isLoading (fst r) = false /\
  (sessionResponse x = None ->
   existsb isAlert (snd r) = true /\
   sinkLevels (snd r) = [] /\
   existsb (fun e => match e with
                     | UnloadAsync _ | CreateAsync _ => true
                     | _ => false
                     end) (snd r) = false /\
   intervals (fst r) = intervals a /\
   isPlaying (fst r) = isPlaying a /\
   currentSession (fst r) = currentSession a /\
   audioSink (fst r) = audioSink a) /\
  (forall s, sessionResponse x = Some s ->
   existsb isAlert (snd r) = false /\
   currentSession (fst r) = Some s /\
   isPlaying (fst r) = true /\
   List.length (intervals (fst r)) = S (List.length (intervals a))).
Proof.
  intros Hp Hs r. subst r. split; [|split].
  - unfold Native.startSession, Native.loadAudioFile, Native.startMRISimulation.
    rewrite Hp, Hs.
    destruct (sessionResponse x); [|reflexivity].
    destruct (audioSink a), (unloadResolves x), (loadedSink x); reflexivity.
  - intros Hx.
    destruct (startSession_failed_fields x a Hx) as (I & _ & Pl & Cs & Au).
    repeat split; try assumption;
      unfold Native.startSession; rewrite Hp, Hs, Hx; reflexivity.
  - intros s Hx.
    destruct (startSession_shape x a p sp s Hp Hs Hx) as (I & _ & Pl & Al & _).
    repeat split; try assumption.
    + unfold Native.startSession, Native.loadAudioFile,
        Native.startMRISimulation.
      rewrite Hp, Hs, Hx.
      destruct (audioSink a), (unloadResolves x), (loadedSink x); reflexivity.
    + rewrite I, length_app. cbn. lia.
Qed.

Lemma only_session_creation_is_fatal_witness :
  let x : StartOutcome Sound :=
    mkStartOutcome (Some (mkUserSession "s1")) true None in
  let a : App Sound := ready examplePattern (1 # 2) in
  let r := Native.startSession x a in
  isLoading (fst r) = false /\
  (sessionResponse x = None ->
   existsb isAlert (snd r) = true /\
   sinkLevels (snd r) = [] /\
   existsb (fun e => match e with
                     | UnloadAsync _ | CreateAsync _ => true
                     | _ => false
                     end) (snd r) = false /\
   intervals (fst r) = intervals a /\
   isPlaying (fst r) = isPlaying a /\
   currentSession (fst r) = currentSession a /\
   audioSink (fst r) = audioSink a) /\
  (forall s, sessionResponse x = Some s ->
   existsb isAlert (snd r) = false /\
   currentSession (fst r) = Some s /\
   isPlaying (fst r) = true /\
   List.length (intervals (fst r)) = S (List.length (intervals a))).
Proof.
  apply (only_session_creation_is_fatal
           (mkStartOutcome (Some (mkUserSession "s1")) true None)
           (ready examplePattern (1 # 2)) examplePattern exampleProfile);
    reflexivity.
Defined.

(** X7. A Stop whose audio stop rejects stops nothing: the state is left
    exactly as it was, no backend request is sent, the session still shows
    as playing and its interval fires on as if Stop had not been pressed. *)
Theorem rejected_audio_stop_stops_nothing
        (x y : StopOutcome) (a : App Sound) (s : Sound) (h : nat) :
  audioSink a = Some s ->
  stopResolves x = false ->
  fst (Native.pressStop x a) = a /\
  snd (Native.pressStop x a)
  = [StopAsync s; ConsoleError "Error stopping session:"] /\
  Native.fire y h (fst (Native.pressStop x a)) = Native.fire y h a.
Proof.
  intros Hs R. unfold Native.pressStop, Native.stopSession.
  rewrite Hs, R. cbn [fst snd]. repeat split; reflexivity.
Qed.

Lemma rejected_audio_stop_stops_nothing_witness :
  let x := mkStopOutcome false true in
  fst (Native.pressStop x exampleRunning) = exampleRunning /\
  snd (Native.pressStop x exampleRunning)
  = [StopAsync 7%nat; ConsoleError "Error stopping session:"] /\
  Native.fire allResolve 1 (fst (Native.pressStop x exampleRunning))
  = Native.fire allResolve 1 exampleRunning.
Proof.
  apply (rejected_audio_stop_stops_nothing
           (mkStopOutcome false true) allResolve exampleRunning 7%nat 1%nat);
    reflexivity.
Defined.

(** X8. A Stop whose backend request rejects has already cleared the
    interval but resets nothing: no more ticks come, yet the session still
    shows as playing, with its session, progress and remaining time as
    they were, and [setIsPlaying(false)] is not called. *)
Theorem rejected_completion_freezes_session
        (x : StopOutcome) (a : App Sound) (u : UserSession) (h : nat) :
  currentSession a = Some u ->
  progressTimer a = Some h ->
  (audioSink a = None \/ stopResolves x = true) ->
  completeResolves x = false ->
  let a1 := fst (Native.pressStop x a) in
  findInterval h (intervals a1) = None /\
  isPlaying a1 = isPlaying a /\
  currentSession a1 = Some u /\
  scanProgress a1 = scanProgress a /\
  timeRemaining a1 = timeRemaining a /\
  countStopped (snd (Native.pressStop x a)) = 0%nat.
Proof.
  intros Hu Hh Hr C. unfold Native.pressStop, Native.stopSession.
  rewrite Hu, C.
  assert (E : forall A (k1 k2 : A),
             match audioSink a, stopResolves x with
             | Some _, false => k1
             | _, _ => k2
             end = k2).
  { intros A k1 k2. destruct Hr as [Hn | Ht]; [rewrite Hn; reflexivity |].
    rewrite Ht. destruct (audioSink a); reflexivity. }
  rewrite E. cbn [fst snd]. unfold clearProgressTimer. rewrite Hh.
  cbn [intervals withIntervals isPlaying currentSession scanProgress
       timeRemaining].
  repeat split; try assumption; try reflexivity.
  - apply findInterval_remove.
  - destruct (audioSink a); reflexivity.
Qed.

Lemma rejected_completion_freezes_session_witness :
  let x := mkStopOutcome true false in
  let a1 := fst (Native.pressStop x exampleRunning) in
  findInterval 1 (intervals a1) = None /\
  isPlaying a1 = isPlaying exampleRunning /\
  currentSession a1 = Some (mkUserSession "s1") /\
  scanProgress a1 = scanProgress exampleRunning /\
  timeRemaining a1 = timeRemaining exampleRunning /\
  countStopped (snd (Native.pressStop x exampleRunning)) = 0%nat.
Proof.
  apply (rejected_completion_freezes_session
           (mkStopOutcome true false) exampleRunning (mkUserSession "s1")
           1%nat); try reflexivity.
  right; reflexivity.
Defined.

(** ** What the controls can reach *)

Lemma single_same_fields (a b : App Sound) :
  intervals b = intervals a ->
  progressTimer b = progressTimer a ->
  isPlaying b = isPlaying a ->
  currentSession b = currentSession a ->
  SingleSchedule a -> SingleSchedule b.
Proof.
  unfold SingleSchedule. intros I P Pl Cs. rewrite I, P, Pl, Cs. tauto.
Qed.

Lemma single_cleared (a : App Sound) :
  SingleSchedule a -> intervals (clearProgressTimer a) = [].
Proof.
  intros [[E | (h & c & l & E & P & _)] _]; unfold clearProgressTimer.
  - destruct (progressTimer a); cbn; rewrite E; reflexivity.
  - rewrite P. cbn. rewrite E. cbn. rewrite Nat.eqb_refl. reflexivity.
Qed.

Lemma single_without_intervals (a : App Sound) :
  intervals a = [] ->
  (isPlaying a = false -> currentSession a = None) ->
  SingleSchedule a.
Proof. intros E H. split; [left; exact E | exact H]. Qed.

Lemma clearProgressTimer_fields {sink : Type} (a : App sink) :
  progressTimer (clearProgressTimer a) = progressTimer a /\
  isPlaying (clearProgressTimer a) = isPlaying a /\
  currentSession (clearProgressTimer a) = currentSession a /\
  audioSink (clearProgressTimer a) = audioSink a.
Proof.
  unfold clearProgressTimer. destruct (progressTimer a) eqn:E;
    repeat split; try reflexivity; cbn; exact E.
Qed.

Lemma stop_keeps_single (sound : option Sound) (cs : option UserSession)
      (x : StopOutcome) (a : App Sound) :
  SingleSchedule a -> SingleSchedule (fst (Native.stopSession sound cs x a)).
Proof.
  intros S. pose proof (single_cleared a S) as Cl.
  destruct (clearProgressTimer_fields a) as (_ & Pl & Cs & _).
  assert (S1 : SingleSchedule (clearProgressTimer a)).
  { apply single_without_intervals; [exact Cl |].
    rewrite Pl, Cs. apply S. }
  assert (S2 : SingleSchedule
                 (applySetters stopResets (clearProgressTimer a))).
  { apply single_without_intervals; [|reflexivity].
    destruct (applySetters_runtime stopResets (clearProgressTimer a))
      as (I & _). rewrite I. exact Cl. }
  unfold Native.stopSession.
  destruct sound, (stopResolves x), cs, (completeResolves x); cbn [fst];
    first [exact S | exact S1 | exact S2].
Qed.

Lemma native_tick_keeps_session (c : Closure Sound) (l : Locals)
      (a : App Sound) :
  currentSession (applySetters (emitted (Native.intervalCallback c l)) a)
  = currentSession a /\
  existsb isSessionComplete (emitted (Native.intervalCallback c l)) = false.
Proof. unfold Native.intervalCallback. tick_cases; split; reflexivity. Qed.

Lemma fire_keeps_single (x : StopOutcome) (h : nat) (a : App Sound) :
  SingleSchedule a -> SingleSchedule (fst (Native.fire x h a)).
Proof.
  intros S. unfold Native.fire.
  destruct (findInterval h (intervals a)) as [[c l]|] eqn:F; [|exact S].
  set (t := Native.intervalCallback c l).
  set (a1 := withIntervals (storeLocals h (locals t) (intervals a)) a).
  assert (S2 : SingleSchedule (applySetters (emitted t) a1)).
  { destruct (applySetters_runtime (emitted t) a1) as (I & P & _ & _).
    destruct (native_tick_quiet c l a1) as (Pl & _).
    destruct (native_tick_keeps_session c l a1) as (Cs & _).
    fold t in Pl, Cs.
    destruct S as [[E | (h0 & c0 & l0 & E & P0 & Pl0 & C0)] N].
    - rewrite E in F. discriminate.
    - split.
      + right. rewrite E in F. cbn in F.
        destruct (Nat.eqb h0 h) eqn:Eh; [|discriminate].
        injection F as -> ->.
        exists h0, c, (locals t). rewrite I, P, Pl. subst a1.
        cbn [intervals withIntervals progressTimer isPlaying].
        rewrite E. cbn [storeLocals]. rewrite Eh. auto.
      + rewrite Pl, Cs. exact N. }
  destruct (autoStop t); [|exact S2].
  pose proof (stop_keeps_single (c_sink c) (c_currentSession c) x _ S2) as S3.
  destruct (Native.stopSession (c_sink c) (c_currentSession c) x
                               (applySetters (emitted t) a1)); exact S3.
Qed.

Lemma start_keeps_single (x : StartOutcome Sound) (a : App Sound) :
  SingleSchedule a -> isPlaying a = false ->
  SingleSchedule (fst (Native.startSession x a)).
Proof.
  intros S Pl.
  assert (E : intervals a = []).
  { destruct S as [[E | (h & c & l & _ & _ & T & _)] _]; [exact E |].
    rewrite Pl in T. discriminate. }
  assert (Cs : currentSession a = None) by (apply S; exact Pl).
  destruct (selectedMRIPattern a) as [p|] eqn:Hp.
  2:{ rewrite startSession_requires_selection by (left; exact Hp). exact S. }
  destruct (selectedSoundProfile a) as [sp|] eqn:Hs.
  2:{ rewrite startSession_requires_selection by (right; exact Hs). exact S. }
  destruct (sessionResponse x) as [s|] eqn:Hx.
  - destruct (startSession_shape x a p sp s Hp Hs Hx) as (I & P & T & _).
    split.
    + right. eexists _, _, _. rewrite I, E. cbn [app].
      split; [reflexivity |]. split; [exact P |]. split; [exact T |].
      exact Cs.
    + rewrite T. discriminate.
  - destruct (startSession_failed_fields x a Hx) as (I & P & T & C & _).
    apply (single_same_fields a); assumption.
Qed.

Lemma loadData_keeps_timeline (x : LoadOutcome) (ls : Lists) (a : App Sound) :
  let a1 := snd (fst (NativeControls.loadData x ls a)) in
  intervals a1 = intervals a /\
  progressTimer a1 = progressTimer a /\
  isPlaying a1 = isPlaying a /\
  currentSession a1 = currentSession a /\
  isLoading a1 = false.
Proof.
  unfold NativeControls.loadData.
  destruct (patternsResponse x) as [[|p ps]|];
    destruct (profilesResponse x) as [[|q qs]|]; repeat split; reflexivity.
Qed.

Lemma perform_keeps_single (act : NativeControls.Action) (a : App Sound) :
  SingleSchedule a -> SingleSchedule (fst (NativeControls.perform act a)).
Proof.
  intros S. destruct act as [x | xs xp | v | p | p | x h]; cbn [NativeControls.perform fst].
  - destruct (loadData_keeps_timeline x (mkLists [] []) a) as (I & P & T & C & _).
    apply (single_same_fields a); assumption.
  - unfold NativeControls.onMainButtonPress.
    destruct (NativeControls.mainButtonDisabled a); [exact S |].
    destruct (isPlaying a) eqn:Pl.
    + apply stop_keeps_single, S.
    + apply start_keeps_single; assumption.
  - unfold NativeControls.onSliderChange.
    destruct (isPlaying a); [exact S |].
    apply (single_same_fields a); try reflexivity. exact S.
  - unfold NativeControls.onPatternCardPress.
    destruct (isPlaying a); [exact S |].
    apply (single_same_fields a); try reflexivity. exact S.
  - unfold NativeControls.onProfileCardPress.
    destruct (isPlaying a); [exact S |].
    apply (single_same_fields a); try reflexivity. exact S.
  - apply fire_keeps_single, S.
Qed.

Lemma performAll_keeps_single (acts : list NativeControls.Action)
      (a : App Sound) :
  SingleSchedule a -> SingleSchedule (fst (NativeControls.performAll acts a)).
Proof.
  revert a. induction acts as [|act acts IH]; intros a S; [exact S |].
  cbn [NativeControls.performAll].
  pose proof (perform_keeps_single act a S) as S1.
  destruct (NativeControls.perform act a) as [a1 es1]. cbn [fst] in S1.
  specialize (IH a1 S1).
  destruct (NativeControls.performAll acts a1); exact IH.
Qed.

Lemma mounted_single : SingleSchedule mounted.
Proof. apply single_without_intervals; reflexivity. Qed.

(** X10. In every state the controls can reach, no firing of a timer sends
    the session-complete request to the backend, not even the firing that
    completes the run: its [stopSession] is the one of the render that
    started the session, where there was no current session yet. *)
Theorem completion_is_never_reported
        (acts : list NativeControls.Action) (x : StopOutcome) (h : nat) :
  existsb isSessionComplete
          (snd (Native.fire x h (fst (NativeControls.performAll acts mounted))))
  = false.
Proof.
  pose proof (performAll_keeps_single acts mounted mounted_single) as S.
  set (a := fst (NativeControls.performAll acts mounted)) in *.
  unfold Native.fire.
  destruct (findInterval h (intervals a)) as [[c l]|] eqn:F; [|reflexivity].
  assert (C : c_currentSession c = None).
  { destruct S as [[E | (h0 & c0 & l0 & E & _ & _ & C0)] _];
      rewrite E in F; [discriminate |].
    cbn in F. destruct (Nat.eqb h0 h); [|discriminate].
    injection F as -> _. exact C0. }
  destruct (native_tick_keeps_session c l a) as (_ & T).
  destruct (autoStop (Native.intervalCallback c l)); [|exact T].
  rewrite C. unfold Native.stopSession.
  destruct (c_sink c), (stopResolves x); cbn [fst snd];
    rewrite existsb_app, T; reflexivity.
Qed.

(** X12. The slider never reaches the audio sink: while a session is
    playing it is disabled and changes nothing, and otherwise it only
    stores the new base volume. *)
Theorem slider_never_reaches_sink (newVolume : Q) (a : App Sound) :
  sinkLevels (snd (NativeControls.onSliderChange newVolume a)) = [] /\
  (if isPlaying a
   then NativeControls.onSliderChange newVolume a = (a, [])
   else NativeControls.onSliderChange newVolume a
        = (setVolume newVolume a, [SetVolume newVolume])).
Proof.
  unfold NativeControls.onSliderChange, Native.adjustVolume.
  destruct (isPlaying a); [split; reflexivity |].
  destruct (audioSink a); split; reflexivity.
Qed.

(** ** Loading the lists *)

(** X13. When both lists arrive and are non-empty, [loadData] stores them
    and selects their first elements, which enables the main button; a
    press then starts a session over the first pattern at the initial
    volume 0.7, with one interval whose closure holds no sink and no
    session. *)
Theorem loaded_defaults_start_a_session
        (x : LoadOutcome) (ls : Lists)
        (xs : StartOutcome Sound) (xp : StopOutcome)
        (p : MRIPattern) (ps : list MRIPattern)
        (sp : SoundProfile) (sps : list SoundProfile) (s : UserSession) :
  patternsResponse x = Some (p :: ps) ->
  profilesResponse x = Some (sp :: sps) ->
  sessionResponse xs = Some s ->
  let r := NativeControls.loadData x ls mounted in
  let a1 := snd (fst r) in
  let a2 := fst (NativeControls.onMainButtonPress xs xp a1) in
  fst (fst r) = mkLists (p :: ps) (sp :: sps) /\
  selectedMRIPattern a1 = Some p /\
  selectedSoundProfile a1 = Some sp /\
  NativeControls.mainButtonDisabled a1 = false /\
  isPlaying a2 = true /\
  currentSession a2 = Some s /\
  intervals a2
  = [(1%nat, (mkClosure (duration_minutes p * 60) (sequence_pattern p)
                        (7 # 10) None None, startLocals))].
Proof.
  intros Hp Hs Hx r a1 a2. subst r a1 a2.
  unfold NativeControls.loadData. rewrite Hp, Hs. cbn [fst snd].
  repeat split.
  - unfold NativeControls.onMainButtonPress, Native.startSession,
      Native.loadAudioFile, Native.startMRISimulation. cbn. rewrite Hx.
    destruct (loadedSink xs); reflexivity.
  - unfold NativeControls.onMainButtonPress, Native.startSession,
      Native.loadAudioFile, Native.startMRISimulation. cbn. rewrite Hx.
    destruct (loadedSink xs); reflexivity.
  - unfold NativeControls.onMainButtonPress, Native.startSession,
      Native.loadAudioFile, Native.startMRISimulation. cbn. rewrite Hx.
    destruct (loadedSink xs); reflexivity.
Qed.

Lemma loaded_defaults_start_a_session_witness :
  let x := mkLoadOutcome (Some [examplePattern; tenSecondPattern])
                         (Some [exampleProfile]) in
  let r := NativeControls.loadData x (mkLists [] []) mounted in
  let a1 := snd (fst r) in
  let a2 := fst (NativeControls.onMainButtonPress okStart allResolve a1) in
  fst (fst r) = mkLists [examplePattern; tenSecondPattern] [exampleProfile] /\
  selectedMRIPattern a1 = Some examplePattern /\
  selectedSoundProfile a1 = Some exampleProfile /\
  NativeControls.mainButtonDisabled a1 = false /\
  isPlaying a2 = true /\
  currentSession a2 = Some (mkUserSession "s1") /\
  intervals a2
  = [(1%nat, (mkClosure (duration_minutes examplePattern * 60)
                        (sequence_pattern examplePattern)
                        (7 # 10) None None, startLocals))].
Proof.
  apply (loaded_defaults_start_a_session
           (mkLoadOutcome (Some [examplePattern; tenSecondPattern])
                          (Some [exampleProfile]))
           (mkLists [] []) okStart allResolve
           examplePattern [tenSecondPattern] exampleProfile []
           (mkUserSession "s1")); reflexivity.
Defined.

(** X14. After [loadData] on the mounted component the main button is
    enabled exactly when both lists arrived non-empty; while it is disabled
    a press does nothing.  An alert is raised exactly when a fetch
    rejected; if the patterns cannot be fetched the profiles are not asked
    for; and if only the profiles fail, the fetched patterns are stored but
    none is selected.  The loading flag always ends up cleared. *)
Theorem loadData_enables_the_button
        (x : LoadOutcome) (ls : Lists)
        (xs : StartOutcome Sound) (xp : StopOutcome) :
  let r := NativeControls.loadData x ls mounted in
  let a1 := snd (fst r) in
  isLoading a1 = false /\
  (NativeControls.mainButtonDisabled a1 = false <->
   exists p ps sp sps, patternsResponse x = Some (p :: ps)
                       /\ profilesResponse x = Some (sp :: sps)) /\
  (NativeControls.mainButtonDisabled a1 = true ->
   NativeControls.onMainButtonPress xs xp a1 = (a1, [])) /\
  (In (Plain (Alert "Error" "Failed to load MRI patterns and sound profiles"))
      (snd r)
   <-> patternsResponse x = None \/ profilesResponse x = None) /\
  (patternsResponse x = None ->
   ~ In GetSoundProfiles (snd r) /\ fst (fst r) = ls) /\
  (forall l, patternsResponse x = Some l -> profilesResponse x = None ->
   mriPatterns (fst (fst r)) = l /\ selectedMRIPattern a1 = None).
Proof.
  intros r a1. subst r a1.
  split; [|split; [|split; [|split; [|split]]]].
  - unfold NativeControls.loadData.
    destruct (patternsResponse x) as [[|p ps]|];
      destruct (profilesResponse x) as [[|sp sps]|]; reflexivity.
  - unfold NativeControls.loadData.
    destruct (patternsResponse x) as [[|p ps]|];
      destruct (profilesResponse x) as [[|sp sps]|]; cbn [fst snd];
      (split;
       [ intros D; try discriminate D;
         eexists _, _, _, _; split; reflexivity
       | intros (p0 & ps0 & sp0 & sps0 & E1 & E2);
         try discriminate E1; try discriminate E2; reflexivity ]).
  - intros D. unfold NativeControls.onMainButtonPress. rewrite D. reflexivity.
  - unfold NativeControls.loadData.
    destruct (patternsResponse x) as [[|p ps]|];
      destruct (profilesResponse x) as [[|sp sps]|]; cbn [fst snd];
      (split;
       [ intros H; cbn in H;
         repeat (destruct H as [H | H]; [discriminate H |]);
         try contradiction; auto
       | intros [E | E]; try discriminate E; cbn; auto 10 ]).
  - intros E. unfold NativeControls.loadData. rewrite E. cbn [fst snd].
    split; [|reflexivity].
    intros H. cbn in H.
    repeat (destruct H as [H | H]; [discriminate H |]). contradiction.
  - intros l E1 E2. unfold NativeControls.loadData. rewrite E1, E2.
    split; reflexivity.
Qed.

(** ** Which sound the ticks address *)

(** X18. When the native [startSession] loads a sound other than the one
    the component held at the press, the sound it loads becomes the
    component's sound, but no tick of the interval it schedules ever sets
    that sound's volume: the ticks address only the sound held at the
    press, which the same start has just unloaded, and none at all if no
    sound was held. *)
Theorem ticks_never_address_the_loaded_sound
        (x : StartOutcome Sound) (a : App Sound)
        (p : MRIPattern) (sp : SoundProfile) (s : UserSession)
        (loaded : Sound) :
  selectedMRIPattern a = Some p ->
  selectedSoundProfile a = Some sp ->
  sessionResponse x = Some s ->
  loadedSink x = Some loaded ->
  audioSink a <> Some loaded ->
  (audioSink a = None \/ unloadResolves x = true) ->
  let r := Native.startSession x a in
  audioSink (fst r) = Some loaded /\
  exists c,
    intervals (fst r) = intervals a ++ [(nextTimerId a, (c, startLocals))] /\
    (forall l v,
        ~ In (SetVolumeAsync loaded v)
             (emitted (Native.intervalCallback c l))) /\
    (forall l target v,
        In (SetVolumeAsync target v) (emitted (Native.intervalCallback c l)) ->
        audioSink a = Some target /\ In (UnloadAsync target) (snd r)) /\
    (audioSink a = None ->
     forall l, sinkLevels (emitted (Native.intervalCallback c l)) = []).
Proof.
  intros Hp Hs Hx Hl Hfresh Hun r.
  destruct (startSession_shape x a p sp s Hp Hs Hx) as (I & _).
  assert (Addr : forall l target v,
             In (SetVolumeAsync target v)
                (emitted (Native.intervalCallback
                            (mkClosure (duration_minutes p * 60)
                                       (sequence_pattern p) (volume a)
                                       (audioSink a) (currentSession a)) l)) ->
             audioSink a = Some target /\ In (UnloadAsync target) (snd r)).
  { intros l target v. unfold Native.intervalCallback.
    cbn [c_sink sequences totalDuration c_volume].
    destruct (sequence_pattern p) as [|s0 ss].
    { cbn. intros H. repeat (destruct H as [H | H]; [discriminate H |]).
      contradiction. }
    destruct (nth_error (s0 :: ss) (sequenceIndex l)).
    2:{ cbn. intros H. repeat (destruct H as [H | H]; [discriminate H |]).
        contradiction. }
    destruct (audioSink a) as [old|] eqn:Ha;
      match goal with |- context [if ?b then _ else _] => destruct b end;
      cbn; intros H;
      repeat (destruct H as [H | H];
              [first [discriminate H | injection H as <- _] |]);
      try contradiction;
      (split; [reflexivity |]);
      subst r; unfold Native.startSession, Native.loadAudioFile,
               Native.startMRISimulation;
      rewrite Hp, Hs, Hx, Ha;
      destruct (unloadResolves x), (loadedSink x); cbn; auto 10. }
  split.
  - subst r. unfold Native.startSession, Native.loadAudioFile,
      Native.startMRISimulation. rewrite Hp, Hs, Hx, Hl.
    destruct Hun as [Hn | Hu].
    + rewrite Hn. reflexivity.
    + rewrite Hu. destruct (audioSink a); reflexivity.
  - eexists. split; [exact I |]. split; [|split].
    + intros l v H. apply Addr in H. destruct H as [H _]. contradiction.
    + exact Addr.
    + intros Ha l. unfold Native.intervalCallback. cbn [c_sink sequences].
      rewrite Ha.
      destruct (sequence_pattern p) as [|s0 ss]; [reflexivity |].
      destruct (nth_error (s0 :: ss) (sequenceIndex l)); [|reflexivity].
      match goal with |- context [if ?b then _ else _] => destruct b end;
        reflexivity.
Qed.

Lemma ticks_never_address_the_loaded_sound_witness :
  let x : StartOutcome Sound :=
    mkStartOutcome (Some (mkUserSession "s2")) true (Some 8%nat) in
  let r := Native.startSession x exampleRunning in
  audioSink (fst r) = Some 8%nat /\
  exists c,
    intervals (fst r)
    = intervals exampleRunning ++ [(2%nat, (c, startLocals))] /\
    (forall l v,
        ~ In (SetVolumeAsync 8%nat v)
             (emitted (Native.intervalCallback c l))) /\
    (forall l target v,
        In (SetVolumeAsync target v) (emitted (Native.intervalCallback c l)) ->
        audioSink exampleRunning = Some target
        /\ In (UnloadAsync target) (snd r)) /\
    (audioSink exampleRunning = None ->
     forall l, sinkLevels (emitted (Native.intervalCallback c l)) = []).
Proof.
  apply (ticks_never_address_the_loaded_sound
           (mkStartOutcome (Some (mkUserSession "s2")) true (Some 8%nat))
           exampleRunning examplePattern exampleProfile
           (mkUserSession "s2") 8%nat); try reflexivity.
  - vm_compute. discriminate.
  - right. reflexivity.
Defined.
